(** * NXTensor: the extraction engine, embedded and verified

    A shallow embedding of
    - [nxtensor/core/xarray_channel_extraction.py]: the temporal block
      partitioner, the cross-label block merger, the dispatcher and the
      record converter;
    - [src/time_series.py]: the region extractor and the visitor that
      evaluates computed variables.

    Python dictionaries are insertion-ordered association lists with unique
    keys, exceptions are the [Raise] branch of [result], and the objects the
    code mutates (the caller's table, the module globals, the file system) are
    threaded explicitly. *)

From Stdlib Require Import ZArith Lia Ascii.
From stdpp Require Import base list strings pretty sorting.

Open Scope string_scope.
Open Scope list_scope.

(** ** Python prelude *)

Module Py.

(** The exceptions that the embedded code can raise. *)
Inductive exn : Type :=
| ValueError
| KeyError
| TypeError
| AttributeError
| IndexError
| UnboundLocalError
| FileNotFoundError
| ConfigurationError (msg : string)
| EvaluationError (expression : string)
| Exception (msg : string).

Inductive result (A : Type) : Type :=
| Ok (a : A)
| Raise (e : exn).
Global Arguments Ok {A} a.
Global Arguments Raise {A} e.

Global Instance exn_eq_dec : EqDecision exn.
Proof. solve_decision. Defined.

Global Instance result_eq_dec `{EqDecision A} : EqDecision (result A).
Proof. solve_decision. Defined.

Global Instance result_ret : MRet result := @Ok.
Global Instance result_bind : MBind result := λ A B f m,
match m with Ok a => f a | Raise e => Raise e end.
Global Instance result_fmap : FMap result := λ A B f m,
match m with Ok a => Ok (f a) | Raise e => Raise e end.

Definition is_Ok {A} (m : result A) : Prop := ∃ a, m = Ok a.

(** [[f(x) for x in l]], stopping at the first exception. *)
Fixpoint traverse {A B} (f : A → result B) (l : list A) : result (list B) :=
match l with
| [] => Ok []
| x :: l' => y ← f x; ys ← traverse f l'; Ok (y :: ys)
end.

(** A [for] loop that updates an accumulator and may raise. *)
Fixpoint for_each {A S} (body : S → A → result S) (s : S) (l : list A) : result S :=
match l with
| [] => Ok s
| x :: l' => s' ← body s x; for_each body s' l'
end.

(** [l.index(x)]: the first position of [x], [None] for ValueError. *)
Fixpoint list_index `{EqDecision A} (x : A) (l : list A) : option nat :=
match l with
| [] => None
| y :: l' => if decide (x = y) then Some 0%nat else S <$> list_index x l'
end.

(** [[i for i, y in enumerate(l) if y == x]]. *)
Definition positions_of `{EqDecision A} (x : A) (l : list A) : list nat :=
filter (λ i, l !! i = Some x) (seq 0 (length l)).

(** *** Dictionaries: insertion-ordered, one entry per key *)

Abbreviation dict K V := (list (K * V)).

Section dict.
Context {K V : Type} `{EqDecision K}.

Fixpoint dict_get (k : K) (d : dict K V) : option V :=
  match d with
  | [] => None
  | (k', v) :: d' => if decide (k = k') then Some v else dict_get k d'
  end.

(** [d[k] = v]: an existing key keeps its place, a new one goes last. *)
Fixpoint dict_set (k : K) (v : V) (d : dict K V) : dict K V :=
  match d with
  | [] => [(k, v)]
  | (k', v') :: d' =>
      if decide (k = k') then (k', v) :: d' else (k', v') :: dict_set k v d'
  end.

(** [d[k]] as an expression: KeyError when the key is missing. *)
Definition dict_getitem (k : K) (d : dict K V) : result V :=
  match dict_get k d with
  | Some v => Ok v
  | None => Raise KeyError
  end.

(** [k in d] *)
Definition dict_contains (k : K) (d : dict K V) : bool :=
  bool_decide (is_Some (dict_get k d)).

Definition dict_keys (d : dict K V) : list K := d.*1.
Definition dict_values (d : dict K V) : list V := d.*2.

(** The invariant of a Python dictionary. *)
Definition dict_wf (d : dict K V) : Prop := NoDup (dict_keys d).

(** [dict(pairs)] *)
Definition dict_of_pairs (l : list (K * V)) : dict K V :=
  foldl (λ d kv, dict_set kv.1 kv.2 d) [] l.

(** [d1 == d2]: the same keys with the same values, in any order. *)
Definition dict_equiv (d1 d2 : dict K V) : Prop :=
  ∀ k, dict_get k d1 = dict_get k d2.
End dict.

(** [set(l)]: the elements once each; the iteration order of a Python set
  is unspecified, first occurrence is the order chosen here and
  nothing proved below depends on it. *)
Definition set_of `{EqDecision A} (l : list A) : list A := remove_dups l.

End Py.
Import Py.

(** ** Names declared outside the files at hand *)

(** Modelled from the spec: [nxtensor.utils.time_utils.TimeResolution] is not
    among the sources. The spec gives the ordered time-field list (year;
    year, month; year, month, day; year, month, day, hour) and the
    zero-padded string renderings of month, day and hour; the field names are
    plain strings, as the f-string of the partitioner's error message and the
    lookups into the records show. *)
Module TimeResolution.
Definition YEAR : string := "year".
Definition MONTH : string := "month".
Definition DAY : string := "day".
Definition HOUR : string := "hour".
Definition MONTH2D : string := "month2d".
Definition DAY2D : string := "day2d".
Definition HOUR2D : string := "hour2d".
Definition KEYS : list string := [YEAR; MONTH; DAY; HOUR].
End TimeResolution.

(** Modelled from the spec: [nxtensor.utils.db_utils.CsvOptNames], the names of
    the options of the metadata files (field separator, encoding, line
    terminator). *)
Module CsvOptNames.
Inductive t : Type := SEPARATOR | ENCODING | SAVE_LINE_TERMINATOR.
Global Instance eq_dec : EqDecision t.
Proof. solve_decision. Defined.
End CsvOptNames.

(** The floating-point numbers of the tables and of the grids, as the
    interface the code uses: the four arithmetic operations, the order, and
    the text [str] prints. NaN, which is not equal to itself, is left out. *)
Class Float64 : Type := {
  float : Type;
  float_eq_dec :: EqDecision float;
  fadd : float → float → float;
  fsub : float → float → float;
  fmul : float → float → float;
  fdiv : float → float → float;
  fltb : float → float → bool;
  float_str : float → string
}.

(** An implementation of the interface on which the model runs: exact
    integer arithmetic (coordinates counted in steps of the grid). *)
Definition Z_float : Float64 := {|
  float := Z; fadd := Z.add; fsub := Z.sub; fmul := Z.mul; fdiv := Z.div;
  fltb := Z.ltb; float_str := pretty
|}.

(** ** pandas: the part of [DataFrame] that the extraction code uses *)

Section pandas.
Context `{Float64}.

(** A cell of a table, an element of a Period, a field of a record. A
    column holds values of one kind, so that an integer is never compared
    with a float. *)
Inductive value : Type :=
| VInt (z : Z)
| VFloat (x : float)
| VStr (s : string).

#[export] Instance value_eq_dec : EqDecision value.
Proof. solve_decision. Defined.

(** Rows carry their index label; the cells of a row are aligned with
    [columns]. *)
Record DataFrame : Type := {
  columns : list string;
  index_name : option string;
  rows : list (Z * list value)
}.

#[export] Instance DataFrame_eq_dec : EqDecision DataFrame.
Proof. solve_decision. Defined.

#[export] Instance value_inhabited : Inhabited value := populate (VInt 0).

Definition index (df : DataFrame) : list Z := (rows df).*1.

(** The default index of a table that was read from a file: 0, 1, 2, ... *)
Definition RangeIndex (n : nat) : list Z := Z.of_nat <$> seq 0 n.

(** The order pandas sorts group keys by: numbers by value, strings
    lexicographically. A column holds one kind of value; the order between
    kinds is a convention of this model. *)
Definition value_leb (a b : value) : bool :=
  match a, b with
  | VInt x, VInt y => (x <=? y)%Z
  | VFloat x, VFloat y => negb (fltb y x)
  | VStr x, VStr y => String.leb x y
  | VInt _, _ => true
  | VFloat _, VStr _ => true
  | _, _ => false
  end.

Fixpoint tuple_leb (p q : list value) : bool :=
  match p, q with
  | [], _ => true
  | _ :: _, [] => false
  | a :: p', b :: q' =>
      if decide (a = b) then tuple_leb p' q' else value_leb a b
  end.

Definition tuple_le (p q : list value) : Prop := tuple_leb p q = true.

#[export] Instance tuple_le_dec : RelDecision tuple_le.
Proof. intros p q. unfold tuple_le. apply _. Defined.

(** The position of the column named [name] for [groupby]: the name has to be
    there (KeyError) and only once (ValueError: the grouper is not
    1-dimensional). *)
Definition column_position (name : string) (cols : list string) : result nat :=
  match positions_of name cols with
  | [] => Raise KeyError
  | [i] => Ok i
  | _ => Raise ValueError
  end.

Definition cells_at (positions : list nat) (cells : list value) : list value :=
  (λ i, cells !!! i) <$> positions.

(** [df.groupby(names).indices]: for every tuple of values of the columns
    [names] that occurs, the positions (not the labels) of the rows that carry
    it, in increasing order; the tuples in sorted order. A key is a tuple
    also when there is one column. Tables have no missing value. *)
Definition groupby_indices (df : DataFrame) (names : list string)
    : result (dict (list value) (list nat)) :=
  if decide (names = []) then Raise ValueError else
  positions ← traverse (λ name, column_position name (columns df)) names;
  let row_keys := (λ r, cells_at positions r.2) <$> rows df in
  Ok ((λ k, (k, positions_of k row_keys)) <$> merge_sort tuple_le (remove_dups row_keys)).

(** [df.rename(mapper, axis='columns')] on the column labels. *)
Definition rename_columns (mapper : dict string string) (df : DataFrame) : DataFrame :=
  {| columns := (λ c, default c (dict_get c mapper)) <$> columns df;
     index_name := index_name df;
     rows := rows df |}.

(** [df.index.name = name] *)
Definition set_index_name (name : string) (df : DataFrame) : DataFrame :=
  {| columns := columns df; index_name := Some name; rows := rows df |}.

(** [df[keys]]: the columns named by [keys], in that order; KeyError for a
    name that no column has. *)
Definition getitem_columns (keys : list string) (df : DataFrame) : result DataFrame :=
  positions ← traverse (λ k,
      match positions_of k (columns df) with
      | [] => Raise KeyError
      | ps => Ok ps
      end) keys;
  let ps := concat positions in
  Ok {| columns := (λ i, columns df !!! i) <$> ps;
        index_name := index_name df;
        rows := (λ r, (r.1, cells_at ps r.2)) <$> rows df |}.

(** [df.loc[labels]]: the rows whose index label is in [labels], label by
    label; KeyError for a label that no row has. *)
Definition loc (labels : list Z) (df : DataFrame) : result DataFrame :=
  found ← traverse (λ l,
      match filter (λ r, r.1 = l) (rows df) with
      | [] => Raise KeyError
      | rs => Ok rs
      end) labels;
  Ok {| columns := columns df; index_name := index_name df; rows := concat found |}.

(** [df.to_dict('records')]: one dictionary per row, column name to cell. *)
Definition to_dict_records (df : DataFrame) : list (dict string value) :=
  (λ r, dict_of_pairs (zip (columns df) r.2)) <$> rows df.

(** The invariant of a table: every row has one cell per column. *)
Definition DataFrame_wf (df : DataFrame) : Prop :=
  Forall (λ r, length r.2 = length (columns df)) (rows df).

End pandas.

(** ** nxtensor/core/xarray_channel_extraction.py *)

Section xarray_channel_extraction.
Context `{Float64}.

(** A block of extraction metadata (lat, lon, year, month, etc.). *)
Definition Block : Type := DataFrame.

(** A Period is a tuple of the values of the fields [TimeResolution.KEYS], in
    that order. *)
Definition Period : Type := list value.

Definition DBMetadataMapping : Type := dict string string.

Definition INDEX_NAME : string := "index".

(** [f"{x:02d}"]: an integer in decimal, the sign first, zeros added after
    the sign up to two characters; ValueError for a value that is not an
    integer. *)
Definition format_02d (x : value) : result string :=
  match x with
  | VInt z =>
      let sign := if (z <? 0)%Z then "-" else "" in
      let digits := pretty (Z.abs z) in
      let fill := (2 - String.length sign - String.length digits)%nat in
      Ok (sign +:+ String.concat "" (replicate fill "0") +:+ digits)
  | _ => Raise ValueError
  end.

Definition convert_record (dictionary : dict string value) : result (dict string value) :=
  month ← dict_getitem TimeResolution.MONTH dictionary;
  month2d ← format_02d month;
  let dictionary := dict_set TimeResolution.MONTH2D (VStr month2d) dictionary in
  day ← dict_getitem TimeResolution.DAY dictionary;
  day2d ← format_02d day;
  let dictionary := dict_set TimeResolution.DAY2D (VStr day2d) dictionary in
  hour ← dict_getitem TimeResolution.HOUR dictionary;
  hour2d ← format_02d hour;
  Ok (dict_set TimeResolution.HOUR2D (VStr hour2d) dictionary).

Definition convert_block_to_dict (extraction_metadata_block : Block)
    : result (list (dict string value)) :=
  traverse convert_record (to_dict_records extraction_metadata_block).

(** The pair is the caller's table after the call and what the call returns
    or raises. *)
Definition __build_blocks_structure (dataframe : DataFrame)
    (db_metadata_mapping : DBMetadataMapping) (netcdf_file_time_period : string)
    (inplace : bool) : DataFrame * result (dict Period Block) :=
  match list_index netcdf_file_time_period TimeResolution.KEYS with
  | None =>
      (dataframe,
       Raise (ConfigurationError
                ("'" +:+ netcdf_file_time_period +:+ "' is not a known time resolution")))
  | Some resolution_degree =>
      let list_keys := take (resolution_degree + 1) TimeResolution.KEYS in
      match (list_column_names ←
               traverse (λ key, dict_getitem key db_metadata_mapping) list_keys;
             groupby_indices dataframe list_column_names) with
      | Raise e => (dataframe, Raise e)
      | Ok indices =>
          (* Rename the columns of the dataframe. *)
          let reverse_metadata_mapping :=
            dict_of_pairs ((λ kv, (kv.2, kv.1)) <$> db_metadata_mapping) in
          let renamed_df := rename_columns reverse_metadata_mapping dataframe in
          let renamed_df := set_index_name INDEX_NAME renamed_df in
          (if inplace then renamed_df else dataframe,
           (* Select only the columns of interest (lat, lon, year, etc.). *)
           restricted_renamed_df ←
             getitem_columns (dict_keys db_metadata_mapping) renamed_df;
           (* Compute the extraction_metadata_blocks. *)
           for_each (λ result index,
               positions ← dict_getitem index indices;
               block ← loc (Z.of_nat <$> positions) restricted_renamed_df;
               Ok (dict_set index block result))
             [] (dict_keys indices))
      end
  end.

(** The body of the inner loop of the merger: one label for one period. *)
Definition merge_label (period : Period) (result : dict Period (dict string Block))
    (item : string * dict Period Block) : dict Period (dict string Block) :=
  let '(label_id, structure) := item in
  match dict_get period structure with
  | Some block =>
      let result :=
        if dict_contains period result then result
        else dict_set period [] result in
      let blocks := default [] (dict_get period result) in
      dict_set period (dict_set label_id block blocks) result
  | None => result
  end.

(** Enable processing of extractions period by period so as to open a netcdf
    file only one time. *)
Definition __merge_block_structures (structures : dict string (dict Period Block))
    : dict Period (dict string Block) :=
  (* Build a set of periods. *)
  let periods : list Period :=
    set_of (concat (dict_keys <$> dict_values structures)) in
  foldl (λ result period, foldl (merge_label period) result structures) [] periods.

(** *** The dispatcher *)

(** Modelled from the spec: the constants of [nxtensor.utils.file_utils] that
    name the files (the separator after the period and the two file
    extensions) are not among the sources; they are taken as given. *)
Record file_utils : Type := {
  NAME_SEPARATOR : string;
  CSV_FILE_EXTENSION : string;
  HDF5_FILE_EXTENSION : string
}.

Variable fu : file_utils.

(** The arrays that the processing function hands back ([xr.DataArray]); the
    dispatcher only passes their [values] on to the writer. *)
Variable DataArray : Type.

(** [os.path.join] and [os.path.dirname] of posixpath. *)
Definition slash : ascii := "/"%char.

Definition path_join2 (path b : string) : string :=
  let cs := String.list_ascii_of_string path in
  if bool_decide (head (String.list_ascii_of_string b) = Some slash) then b
  else if bool_decide (cs = [] ∨ last cs = Some slash) then path +:+ b
  else path +:+ "/" +:+ b.

Definition path_join (a : string) (p : list string) : string := foldl path_join2 a p.

Fixpoint lstrip_slashes (cs : list ascii) : list ascii :=
  match cs with
  | c :: cs' => if decide (c = slash) then lstrip_slashes cs' else cs
  | [] => []
  end.

Fixpoint drop_to_slash (cs : list ascii) : list ascii :=
  match cs with
  | c :: cs' => if decide (c = slash) then cs else drop_to_slash cs'
  | [] => []
  end.

Definition path_dirname (p : string) : string :=
  (* head = p[:p.rfind('/') + 1] *)
  let rhead := drop_to_slash (reverse (String.list_ascii_of_string p)) in
  if bool_decide (rhead ≠ [] ∧ lstrip_slashes rhead ≠ [])
  then String.string_of_list_ascii (reverse (lstrip_slashes rhead))
  else String.string_of_list_ascii (reverse rhead).

(** [str] of the elements of a tuple and of the tuple. *)
Definition value_repr (x : value) : string :=
  match x with
  | VInt z => pretty z
  | VFloat x => float_str x
  | VStr s => "'" +:+ s +:+ "'"
  end.

Definition str_period (period : Period) : string :=
  match period with
  | [x] => "(" +:+ value_repr x +:+ ",)"
  | _ => "(" +:+ String.concat ", " (value_repr <$> period) +:+ ")"
  end.

Definition CsvOptions : Type := dict CsvOptNames.t string.

Definition newline : string := String "010"%char "".

Definition DEFAULT_CSV_SAVE_OPTIONS : CsvOptions :=
  [(CsvOptNames.SEPARATOR, ","); (CsvOptNames.ENCODING, "utf8");
   (CsvOptNames.SAVE_LINE_TERMINATOR, "\n")].

(** The processing function that the caller supplies: from a period and its
    blocks to the prefix of the file paths and the extracted data of each
    label. *)
Definition processing_function : Type :=
  Period → dict string Block → result (string * dict string DataArray).

(** The paths written for one label. *)
Definition label_paths : Type := dict string string.

(** Where a piece of code runs. *)
Inductive process : Type := CallerProcess | WorkerProcess.

(** What the dispatcher does to the outside world. *)
Inductive event : Type :=
| Processing (period : Period)
| MakeDirs (path : string)
| ToCsv (path : string) (block : Block) (options : CsvOptions)
| WriteHdf5 (path : string) (values : DataArray).

(** The two module globals, the process that is running, and the log of the
    events with the process that caused each. The file system accepts every
    write. *)
Record World : Type := {
  g_processing_function : option processing_function;
  g_csv_save_options : option CsvOptions;
  running : process;
  log : list (process * event)
}.

Definition io (A : Type) : Type := World → result A * World.

#[export] Instance io_ret : MRet io := λ A a w, (Ok a, w).
#[export] Instance io_bind : MBind io := λ A B f m w,
  match m w with
  | (Ok a, w') => f a w'
  | (Raise e, w') => (Raise e, w')
  end.

Definition io_raise {A} (e : exn) : io A := λ w, (Raise e, w).
Definition io_lift {A} (r : result A) : io A := λ w, (r, w).

Definition emit (ev : event) : io unit := λ w,
  (Ok (),
   {| g_processing_function := g_processing_function w;
      g_csv_save_options := g_csv_save_options w;
      running := running w;
      log := log w ++ [(running w, ev)] |}).

Definition set_globals (f : processing_function) (options : CsvOptions) : io unit := λ w,
  (Ok (),
   {| g_processing_function := Some f;
      g_csv_save_options := Some options;
      running := running w;
      log := log w |}).

Definition read_global {A} (g : World → option A) : io A := λ w,
  match g w with
  | Some a => (Ok a, w)
  | None => (Raise UnboundLocalError, w)
  end.

Definition set_running (p : process) : io unit := λ w,
  (Ok (),
   {| g_processing_function := g_processing_function w;
      g_csv_save_options := g_csv_save_options w;
      running := p;
      log := log w |}).

(** A [for] loop in [io]: it stops at the first exception. *)
Fixpoint io_for_each {A S} (body : S → A → io S) (s : S) (l : list A) : io S :=
  match l with
  | [] => mret s
  | x :: l' => s' ← body s x; io_for_each body s' l'
  end.

(** The objects that the loop of [__core_extraction] binds to its variables:
    strings and data arrays. *)
Inductive pyobj : Type :=
| PStr (s : string)
| PDataArray (a : DataArray).

(** Iterating over a dictionary yields its keys. *)
Definition iter_dict {V} (d : dict string V) : list pyobj := PStr <$> dict_keys d.

(** [a, b = obj]: a string is unpacked into its characters, and there have to
    be exactly two. *)
Definition unpack2 (obj : pyobj) : result (pyobj * pyobj) :=
  match obj with
  | PStr s =>
      match String.list_ascii_of_string s with
      | [a; b] => Ok (PStr (String a ""), PStr (String b ""))
      | _ => Raise ValueError
      end
  | PDataArray _ => Raise TypeError
  end.

(** A string where the code needs one (a path component, a key). *)
Definition as_str (obj : pyobj) : result string :=
  match obj with
  | PStr s => Ok s
  | PDataArray _ => Raise TypeError
  end.

(** [obj.values] *)
Definition attr_values (obj : pyobj) : result DataArray :=
  match obj with
  | PDataArray a => Ok a
  | PStr _ => Raise AttributeError
  end.

(** The body of the loop of [__core_extraction]. The loop is over the
    dictionary itself, so that [item] is one of its keys. [os.makedirs] fails
    on the empty path; the value handed to the writer is
    [data_block.values]. *)
Definition core_extraction_label (period : Period)
    (extraction_metadata_blocks : dict string Block) (file_prefix_path : string)
    (result : dict string label_paths) (item : pyobj) : io (dict string label_paths) :=
  '(label_id, data_block) ← io_lift (unpack2 item);
  label_id ← io_lift (as_str label_id);
  let specific_label_file_prefix_path :=
    path_join file_prefix_path [label_id; str_period period +:+ NAME_SEPARATOR fu] in
  (if decide (path_dirname file_prefix_path = "")
   then io_raise FileNotFoundError
   else emit (MakeDirs (path_dirname file_prefix_path)));;
  let extraction_metadata_block_file_path :=
    specific_label_file_prefix_path +:+ "." +:+ CSV_FILE_EXTENSION fu in
  block ← io_lift (dict_getitem label_id extraction_metadata_blocks);
  options ← read_global g_csv_save_options;
  emit (ToCsv extraction_metadata_block_file_path block options);;
  let data_block_file_path :=
    specific_label_file_prefix_path +:+ "." +:+ HDF5_FILE_EXTENSION fu in
  values ← io_lift (attr_values data_block);
  emit (WriteHdf5 specific_label_file_prefix_path values);;
  let result := dict_set label_id [] result in
  let result :=
    dict_set label_id
      (dict_set "data_block" data_block_file_path
         (default [] (dict_get label_id result))) result in
  let result :=
    dict_set label_id
      (dict_set "metadata_block" extraction_metadata_block_file_path
         (default [] (dict_get label_id result))) result in
  mret result.

Definition __core_extraction (merged_structures_item : Period * dict string Block)
    : io (Period * dict string label_paths) :=
  let '(period, extraction_metadata_blocks) := merged_structures_item in
  f ← read_global g_processing_function;
  emit (Processing period);;
  '(file_prefix_path, extracted_data_blocks) ←
    io_lift (f period extraction_metadata_blocks);
  result ← io_for_each
              (core_extraction_label period extraction_metadata_blocks file_prefix_path)
              [] (iter_dict extracted_data_blocks);
  mret (period, result).

(** [pool.map(func, iterable, chunksize=1)]: every task runs in a worker
    process, also after another one has failed; the results come back in the
    order of the tasks, or the first exception does. A worker starts as a copy
    of the caller's process, with the globals as they are set. With one
    worker the tasks run one after the other in that order; with more, the
    log shows one of the possible interleavings. *)
Fixpoint pool_map {A B} (func : A → io B) (iterable : list A) : io (list B) :=
  match iterable with
  | [] => mret []
  | x :: rest => λ w,
      match func x w with
      | (Ok y, w') =>
          match pool_map func rest w' with
          | (Ok ys, w'') => (Ok (y :: ys), w'')
          | (Raise e, w'') => (Raise e, w'')
          end
      | (Raise e, w') => (Raise e, (pool_map func rest w').2)
      end
  end.

(** [with Pool(processes=n) as pool: ...] *)
Definition with_Pool {A} (processes : Z) (body : io A) : io A :=
  if (processes <? 1)%Z then io_raise ValueError else
  λ w,
    let caller := running w in
    match (set_running WorkerProcess;; body) w with
    | (r, w') => (r, (set_running caller w').2)
    end.

(** What [extract] returns. [dict(tmp_result)] builds the first shape from the
    list of the pairs of a period and its paths; from a single pair it builds
    the second one: the two components of the pair are taken as two key-value
    pairs, and each has to have exactly two elements. *)
Inductive extract_result : Type :=
| ByPeriod (m : dict Period (dict string label_paths))
| FromOnePair (k0 v0 : value) (k1 v1 : string).

Definition dict_of_one_pair (tmp_result : Period * dict string label_paths)
    : result extract_result :=
  match tmp_result.1, dict_keys tmp_result.2 with
  | [k0; v0], [k1; v1] => Ok (FromOnePair k0 v0 k1 v1)
  | _, _ => Raise ValueError
  end.

(** The first component of the result of the loop over the labels is the
    caller's tables after it. *)
Definition build_structures (extraction_metadata_blocks : dict string DataFrame)
    (db_metadata_mappings : dict string DBMetadataMapping)
    (netcdf_file_time_period : string) (inplace : bool)
    : dict string DataFrame * result (dict string (dict Period Block)) :=
  foldl (λ acc '(label_id, dataframe),
      match acc with
      | (tables, Ok structures) =>
          match dict_getitem label_id db_metadata_mappings with
          | Raise e => (tables, Raise e)
          | Ok db_metadata_mapping =>
              let '(dataframe', structure) :=
                __build_blocks_structure dataframe db_metadata_mapping
                  netcdf_file_time_period inplace in
              (dict_set label_id dataframe' tables,
               structure ← structure; Ok (dict_set label_id structure structures))
          end
      | (tables, Raise e) => (tables, Raise e)
      end)
    (extraction_metadata_blocks, Ok []) extraction_metadata_blocks.

(** What a call of [extract] leaves behind: what it returns or raises, the
    caller's tables, and the world. *)
Record extract_outcome : Type := {
  returned : result extract_result;
  tables_after : dict string DataFrame;
  world_after : World
}.

(** Returns the paths of the metadata blocks and of the data blocks according
    to the label for all the periods of time. *)
Definition extract (extraction_metadata_block_processing_function : processing_function)
    (extraction_metadata_blocks : dict string DataFrame)
    (db_metadata_mappings : dict string DBMetadataMapping)
    (netcdf_file_time_period : string) (nb_workers : Z) (inplace : bool)
    (extraction_metadata_block_csv_save_options : CsvOptions)
    (w : World) : extract_outcome :=
  let '(tables, structures) :=
    build_structures extraction_metadata_blocks db_metadata_mappings
      netcdf_file_time_period inplace in
  let run : io extract_result :=
    structures ← io_lift structures;
    let merged_structures := __merge_block_structures structures in
    let extraction_metadata_block_csv_save_options :=
      if dict_contains CsvOptNames.SAVE_LINE_TERMINATOR
           extraction_metadata_block_csv_save_options
      then
        if decide (dict_get CsvOptNames.SAVE_LINE_TERMINATOR
                     extraction_metadata_block_csv_save_options
                   = dict_get CsvOptNames.SAVE_LINE_TERMINATOR DEFAULT_CSV_SAVE_OPTIONS)
        then dict_set CsvOptNames.SAVE_LINE_TERMINATOR newline
               extraction_metadata_block_csv_save_options
        else extraction_metadata_block_csv_save_options
      else extraction_metadata_block_csv_save_options in
    set_globals extraction_metadata_block_processing_function
      extraction_metadata_block_csv_save_options;;
    if decide (nb_workers ≠ 0%Z) then
      tmp_result ← with_Pool nb_workers (pool_map __core_extraction merged_structures);
      mret (ByPeriod (dict_of_pairs tmp_result))
    else
      tmp_result ← io_for_each (λ _ item,
                        tmp_result ← __core_extraction item; mret (Some tmp_result))
                      None merged_structures;
      match tmp_result with
      | None => io_raise UnboundLocalError
      | Some tmp_result => io_lift (dict_of_one_pair tmp_result)
      end in
  match run w with
  | (r, w') => {| returned := r; tables_after := tables; world_after := w' |}
  end.

End xarray_channel_extraction.

Arguments g_processing_function {_ _} _.
Arguments g_csv_save_options {_ _} _.
Arguments running {_ _} _.
Arguments log {_ _} _.
Arguments returned {_ _} _.
Arguments tables_after {_ _} _.
Arguments world_after {_ _} _.
Arguments Processing {_ _} _.
Arguments MakeDirs {_ _} _.
Arguments ToCsv {_ _} _ _ _.
Arguments WriteHdf5 {_ _} _ _.
Arguments PStr {_} _.
Arguments PDataArray {_} _.
Arguments io_raise {_ _ _} _ _.
Arguments io_lift {_ _ _} _ _.
Arguments emit {_ _} _ _.
Arguments set_globals {_ _} _ _ _.
Arguments read_global {_ _ _} _ _.
Arguments set_running {_ _} _ _.
Arguments io_for_each {_ _ _ _} _ _ _ _.
Arguments pool_map {_ _ _ _} _ _ _.
Arguments with_Pool {_ _ _} _ _ _.
Arguments iter_dict {_ _} _.
Arguments unpack2 {_} _.
Arguments as_str {_} _.
Arguments attr_values {_} _.
Arguments core_extraction_label {_} _ {_} _ _ _ _ _ _.
Arguments __core_extraction {_} _ {_} _ _.
Arguments extract {_} _ {_} _ _ _ _ _ _ _ _.

(** ** src/time_series.py *)

Section time_series.
Context `{Float64}.

(** A region: the two-dimensional array that an extraction returns, latitude
    by longitude, once its coordinates are dropped. *)
Definition Region : Type := list (list float).

(** Modelled from the spec: [variable.py] and [enum_utils.py] are not among
    the sources. A variable has a string identifier, per-coordinate metadata
    (source attribute name, spatial resolution, decimal precision for
    rounding) and a date template; a multi-level variable has a fixed
    vertical level in addition; a computed variable holds a postfix
    expression over the identifiers of other variables, which it owns. *)
Record coordinate_properties : Type := {
  NETCDF_ATTR_NAME : string;
  RESOLUTION : float;
  NB_DECIMAL : Z
}.

Record coordinate_metadata_t : Type := {
  LAT : coordinate_properties;
  LON : coordinate_properties
}.

Record variable_attributes : Type := {
  str_id : string;
  netcdf_attribute_name : string;
  coordinate_metadata : coordinate_metadata_t;
  date_template : string
}.

Inductive Variable_ : Type :=
| SingleLevelVariable (attributes : variable_attributes)
| MultiLevelVariable (attributes : variable_attributes) (level : Z)
| ComputedVariable (str_id : string) (computation_expression : string)
    (variables : list Variable_).

Definition variable_str_id (variable : Variable_) : string :=
  match variable with
  | SingleLevelVariable a | MultiLevelVariable a _ => str_id a
  | ComputedVariable id _ _ => id
  end.

(** xarray: what [dataset[name].sel(...)] is asked for. *)
Record selection : Type := {
  sel_name : string;
  sel_time : string;
  sel_level : option Z;
  sel_latitude : float * float;
  sel_longitude : float * float
}.

(** The open dataset of a time series: its coordinate axes and the
    selection of a region, computed and stripped of its coordinates. *)
Record Dataset : Type := {
  coordinate : string → option (list float);
  select : selection → result Region
}.

Record XarrayTimeSeries : Type := { dataset : Dataset }.

Definition time_dict_t : Type := dict string Z.

(** [CoordinateUtils.round_nearest] of [coordinate_utils.py] and Python's
    [str.format] are taken as given. *)
Variable round_nearest : float → float → Z → float.
Variable str_format : string → time_dict_t → result string.

(** Extract the region that centers the given lat/lon location. Variable must
    be SingleLevelVariable or MultiLevelVariable: a computed variable, which
    has no coordinate metadata of its own, is refused at once. *)
Definition _extract_square_region (self : XarrayTimeSeries) (variable : Variable_)
    (time_dict : time_dict_t) (lat lon half_lat_frame half_lon_frame : float)
    (has_to_round : bool) : result Region :=
  match variable with
  | ComputedVariable _ _ _ =>
      Raise (Exception "unsupported direct extraction for variable type")
  | SingleLevelVariable a | MultiLevelVariable a _ =>
      let lat_attribute_name := NETCDF_ATTR_NAME (LAT (coordinate_metadata a)) in
      let lat_resolution := RESOLUTION (LAT (coordinate_metadata a)) in
      let lon_resolution := RESOLUTION (LON (coordinate_metadata a)) in
      let lat :=
        if has_to_round
        then round_nearest lat lat_resolution (NB_DECIMAL (LAT (coordinate_metadata a)))
        else lat in
      let lon :=
        if has_to_round
        then round_nearest lon lon_resolution (NB_DECIMAL (LON (coordinate_metadata a)))
        else lon in
      (* Minus LAT_RESOLUTION because the upper bound in slice is included. *)
      let lat_min := fadd (fsub lat half_lat_frame) lat_resolution in
      let lat_max := fadd lat half_lat_frame in
      (* Minus LON_RESOLUTION because the upper bound in slice is included. *)
      let lon_min := fsub lon half_lon_frame in
      let lon_max := fsub (fadd lon half_lon_frame) lon_resolution in
      formatted_date ← str_format (date_template a) time_dict;
      lat_series ← from_option Ok (Raise KeyError)
                     (coordinate (dataset self) lat_attribute_name);
      first ← from_option Ok (Raise IndexError) (head lat_series);
      final ← from_option Ok (Raise IndexError) (last lat_series);
      let '(lat_min, lat_max) :=
        if fltb final first then (lat_max, lat_min) else (lat_min, lat_max) in
      select (dataset self)
        {| sel_name := netcdf_attribute_name a;
           sel_time := formatted_date;
           sel_level := match variable with
                        | MultiLevelVariable _ level => Some level
                        | _ => None
                        end;
           sel_latitude := (lat_min, lat_max);
           sel_longitude := (lon_min, lon_max) |}
  end.

(** Modelled from the spec: [XarrayRpnCalculator] of [xarray_utils.py] is not
    among the sources. A postfix expression evaluator walks the token
    sequence, pushing extracted regions and applying arithmetic operators
    (element-wise over the region arrays) using a stack discipline:
    operators pop two operands and push one result; the final stack must
    contain exactly one value, which is the result. Referencing an operand
    identifier with no entry in the already-resolved mapping, or an
    expression that does not reduce to exactly one stack value, fails with an
    evaluation error naming the malformed expression. *)
Definition is_space (c : ascii) : bool :=
  bool_decide (c = " "%char ∨ c = "009"%char ∨ c = "010"%char).

Fixpoint split_tokens (cs : list ascii) (word : list ascii) : list string :=
  let flush := if decide (word = []) then []
               else [String.string_of_list_ascii (reverse word)] in
  match cs with
  | [] => flush
  | c :: cs' =>
      if is_space c then flush ++ split_tokens cs' []
      else split_tokens cs' (c :: word)
  end.

Definition tokens (expression : string) : list string :=
  split_tokens (String.list_ascii_of_string expression) [].

Definition operator (token : string) : option (float → float → float) :=
  if decide (token = "+") then Some fadd
  else if decide (token = "-") then Some fsub
  else if decide (token = "*") then Some fmul
  else if decide (token = "/") then Some fdiv
  else None.

Definition same_shape (a b : Region) : bool :=
  bool_decide (length <$> a = length <$> b).

(** An arithmetic operator applied element-wise. *)
Definition elementwise (op : float → float → float) (a b : Region) : Region :=
  zip_with (zip_with op) a b.

(** Modelled from the spec: one token of the walk. The second operand of an
    operator is the one on top of the stack. *)
Definition rpn_step (expression : string) (mapping : dict string Region)
    (stack : list Region) (token : string) : result (list Region) :=
  match operator token with
  | Some op =>
      match stack with
      | rhs :: lhs :: stack' =>
          if same_shape lhs rhs then Ok (elementwise op lhs rhs :: stack')
          else Raise ValueError
      | _ => Raise (EvaluationError expression)
      end
  | None =>
      match dict_get token mapping with
      | Some region => Ok (region :: stack)
      | None => Raise (EvaluationError expression)
      end
  end.

(** Modelled from the spec: [XarrayRpnCalculator.compute], the walk over the
    tokens and the check of the final stack. *)
Definition XarrayRpnCalculator_compute (expression : string)
    (mapping : dict string Region) : result Region :=
  stack ← for_each (rpn_step expression mapping) [] (tokens expression);
  match stack with
  | [value] => Ok value
  | _ => Raise (EvaluationError expression)
  end.

(** The visitor that evaluates a computed variable. *)
Record ExtractionComputedVariable : Type := {
  data_array_mapping : dict string Region;
  visitor_result : option Region
}.

Section visitor.
(** The fields that [__init__] stores and the visit methods only read: the
    bound method [time_series.extract_square_region] with the time, the
    location and the frame. *)
Variable time_series_extract_square_region : Variable_ → result Region.

Definition visit_SingleLevelVariable (self : ExtractionComputedVariable)
    (variable : Variable_) : result ExtractionComputedVariable :=
  region ← time_series_extract_square_region variable;
  Ok {| data_array_mapping :=
          dict_set (variable_str_id variable) region (data_array_mapping self);
        visitor_result := visitor_result self |}.

Definition visit_MultiLevelVariable (self : ExtractionComputedVariable)
    (variable : Variable_) : result ExtractionComputedVariable :=
  visit_SingleLevelVariable self variable.

Definition visit_ComputedVariable (self : ExtractionComputedVariable)
    (variable : Variable_) : result ExtractionComputedVariable :=
  match variable with
  | ComputedVariable _ computation_expression _ =>
      value ← XarrayRpnCalculator_compute computation_expression
                (data_array_mapping self);
      Ok {| data_array_mapping := data_array_mapping self;
            visitor_result := Some value |}
  | _ => Raise AttributeError
  end.

(** Modelled from the spec: [Variable.accept] of [variable.py] is not among
    the sources. The evaluation dispatches by variable kind; single- and
    multi-level operands are extracted and kept under their identifier, a
    nested computed operand recurses, and once all the operands are resolved
    the expression is evaluated. *)
Fixpoint accept (variable : Variable_) (visitor : ExtractionComputedVariable)
    : result ExtractionComputedVariable :=
  match variable with
  | SingleLevelVariable _ => visit_SingleLevelVariable visitor variable
  | MultiLevelVariable _ _ => visit_MultiLevelVariable visitor variable
  | ComputedVariable _ _ variables =>
      visitor ←
        (fix accept_all (operands : list Variable_) visitor :=
           match operands with
           | [] => Ok visitor
           | operand :: operands' =>
               visitor ← accept operand visitor; accept_all operands' visitor
           end) variables visitor;
      visit_ComputedVariable visitor variable
  end.

(** The body of [XarrayTimeSeries.extract_square_region]. The result of a
    visitor that computed nothing is [None]. The three kinds of variable are
    all there are, so that the branch for another kind is never taken. *)
Definition extract_square_region_body (self : XarrayTimeSeries) (variable : Variable_)
    (time_dict : time_dict_t) (lat lon half_lat_frame half_lon_frame : float)
    : result (option Region) :=
  match variable with
  | SingleLevelVariable _ | MultiLevelVariable _ _ =>
      Some <$> _extract_square_region self variable time_dict lat lon
                 half_lat_frame half_lon_frame true
  | ComputedVariable _ _ _ =>
      visitor ← accept variable {| data_array_mapping := []; visitor_result := None |};
      Ok (visitor_result visitor)
  end.

End visitor.

(** Extract the region that centers the given lat/lon location. The visitor
    calls the method back for single- and multi-level variables only, and for
    those the method is [_extract_square_region]. *)
Definition extract_square_region (self : XarrayTimeSeries) (variable : Variable_)
    (time_dict : time_dict_t) (lat lon half_lat_frame half_lon_frame : float)
    : result (option Region) :=
  extract_square_region_body
    (λ variable, _extract_square_region self variable time_dict lat lon
                   half_lat_frame half_lon_frame true)
    self variable time_dict lat lon half_lat_frame half_lon_frame.

End time_series.

(** ** src/extraction.py *)

(** [f"{x}"] of an attribute that holds a string or [None]. *)
Definition format_attribute (x : option string) : string := default "None" x.

(** An attribute of an object, which [del] removes. *)
Inductive attribute (A : Type) : Type :=
| Deleted
| Attr (a : A).
Arguments Deleted {A}.
Arguments Attr {A} a.

Module ClassificationLabel.

Definition FILE_NAME_POSTFIX : string := "label.yml".

(** The attributes that the methods below read. *)
Record t : Type := {
  str_id : option string;
  display_name : option string
}.

(** The static method [generate_filename(str_id, name)], called with the
    positional arguments [args]: TypeError unless there are two. *)
Definition generate_filename (args : list (option string)) : result string :=
  match args with
  | [str_id; name] =>
      Ok (format_attribute str_id +:+ "_" +:+ format_attribute name +:+ "_"
          +:+ FILE_NAME_POSTFIX)
  | _ => Raise TypeError
  end.

Definition compute_filename (self : t) : result string :=
  generate_filename [str_id self; display_name self].

End ClassificationLabel.

Module ExtractionConfig.

Definition FILE_NAME_POSTFIX : string := "extraction_config.yml".

Section ExtractionConfig.
(** The variables and the labels that the descriptions are loaded into, with
    [Variable.load] and [ClassificationLabel.load], and the [save] of
    [YamlSerializable], are taken as given. *)
Context {V L : Type}.

(** The attributes that the methods below read or write; the two lists are
    transient for the serialization. *)
Record t : Type := {
  str_id : option string;
  variable_file_paths : option (list string);
  label_file_paths : option (list string);
  _variables : attribute (option (list V));
  _labels : attribute (option (list L))
}.

Variable Variable_load : string → result V.
Variable ClassificationLabel_load : string → result L.
Variable YamlSerializable_save : t → string → result unit.

(** The static method [generate_filename(str_id)], called with the
    positional arguments [args]. *)
Definition generate_filename (args : list (option string)) : result string :=
  match args with
  | [str_id] => Ok (format_attribute str_id +:+ "_" +:+ FILE_NAME_POSTFIX)
  | _ => Raise TypeError
  end.

Definition compute_filename (self : t) : result string :=
  ClassificationLabel.generate_filename [str_id self].

Definition set_variables (variables : attribute (option (list V))) (self : t) : t :=
  {| str_id := str_id self;
     variable_file_paths := variable_file_paths self;
     label_file_paths := label_file_paths self;
     _variables := variables;
     _labels := _labels self |}.

Definition set_labels (labels : attribute (option (list L))) (self : t) : t :=
  {| str_id := str_id self;
     variable_file_paths := variable_file_paths self;
     label_file_paths := label_file_paths self;
     _variables := _variables self;
     _labels := labels |}.

(** The loop that loads the descriptions and appends what it loads to the
    list of the object: the list so far goes with the outcome. *)
Fixpoint load_all {A} (load : string → result A) (paths : list string) (loaded : list A)
    : list A * result (list A) :=
  match paths with
  | [] => (loaded, Ok loaded)
  | path :: paths' =>
      match load path with
      | Ok x => load_all load paths' (loaded ++ [x])
      | Raise e => (loaded, Raise e)
      end
  end.

(** The pair is the object after the call and what the call returns or
    raises. *)
Definition get_variables (self : t) : t * result (list V) :=
  match _variables self with
  | Attr (Some variables) => (self, Ok variables)
  | _ =>
      (* self._variables = list() # Preserve the order. *)
      match variable_file_paths self with
      | None => (set_variables (Attr (Some [])) self, Raise TypeError)
      | Some paths =>
          let '(loaded, outcome) := load_all Variable_load paths [] in
          (set_variables (Attr (Some loaded)) self, outcome)
      end
  end.

Definition get_labels (self : t) : t * result (list L) :=
  match _labels self with
  | Attr (Some labels) => (self, Ok labels)
  | _ =>
      match label_file_paths self with
      | None => (set_labels (Attr (Some [])) self, Raise TypeError)
      | Some paths =>
          let '(loaded, outcome) := load_all ClassificationLabel_load paths [] in
          (set_labels (Attr (Some loaded)) self, outcome)
      end
  end.

Definition save (self : t) (file_path : string) : t * result unit :=
  match _variables self, _labels self with
  | Attr variables, Attr labels =>
      let stripped := set_labels Deleted (set_variables Deleted self) in
      match YamlSerializable_save stripped file_path with
      | Ok _ => (set_labels (Attr labels) (set_variables (Attr variables) stripped), Ok ())
      | Raise e => (stripped, Raise e)
      end
  | _, _ => (self, Raise AttributeError)
  end.

End ExtractionConfig.

Arguments t : clear implicits.

End ExtractionConfig.

Section dispatcher_vocabulary.
Context `{Float64} {DataArray : Type}.

(** A computation that raises in every world. *)
Definition always_raises {A} (m : io DataArray A) : Prop :=
  ∀ w, ∃ e w', m w = (Raise e, w').

(** The world after the running process has caused some events. *)
Definition add_events (w : World DataArray) (events : list (event DataArray))
    : World DataArray :=
  {| g_processing_function := g_processing_function w;
     g_csv_save_options := g_csv_save_options w;
     running := running w;
     log := log w ++ ((λ ev, (running w, ev)) <$> events) |}.

Definition same_globals (w w' : World DataArray) : Prop :=
  g_processing_function w = g_processing_function w'
  ∧ g_csv_save_options w = g_csv_save_options w'.


(** The save options that [extract] puts in the global: the line terminator
    of the default options, written as an escape, is replaced by a line
    feed. *)
Definition effective_options (options : CsvOptions) : CsvOptions :=
  if dict_contains CsvOptNames.SAVE_LINE_TERMINATOR options
  then
    if decide (dict_get CsvOptNames.SAVE_LINE_TERMINATOR options
               = dict_get CsvOptNames.SAVE_LINE_TERMINATOR DEFAULT_CSV_SAVE_OPTIONS)
    then dict_set CsvOptNames.SAVE_LINE_TERMINATOR newline options
    else options
  else options.

(** The world once [extract] has set the two globals, with the process that
    runs the periods. *)
Definition dispatching (f : processing_function DataArray) (options : CsvOptions)
    (p : process) (w : World DataArray) : World DataArray :=
  {| g_processing_function := Some f;
     g_csv_save_options := Some (effective_options options);
     running := p;
     log := log w |}.


(** The two globals hold a processing function and save options. *)
Definition configured (f : processing_function DataArray) (options : CsvOptions)
    (w : World DataArray) : Prop :=
  g_processing_function w = Some f ∧ g_csv_save_options w = Some options.

(** A computation that, with the globals set, leaves the world as it is but
    for the events that it adds to the log, all of one kind. *)
Definition logs_only (f : processing_function DataArray) (options : CsvOptions)
    (P : event DataArray → Prop) {A} (m : io DataArray A) : Prop :=
  ∀ w, configured f options w →
    ∃ r events, m w = (r, add_events w events) ∧ Forall P events.

(** The periods that the events announce, in the order of the events. *)
Definition processed (events : list (event DataArray)) : list Period :=
  omap (λ ev, match ev with Processing period => Some period | _ => None end) events.

Definition is_Processing (ev : event DataArray) : Prop :=
  match ev with Processing _ => True | _ => False end.

Definition is_WriteHdf5 (ev : event DataArray) : Prop :=
  match ev with WriteHdf5 _ _ => True | _ => False end.

(** The save options of the events that save a metadata block. *)
Definition saved_with (options : CsvOptions) (ev : event DataArray) : Prop :=
  match ev with ToCsv _ _ o => o = options | _ => True end.


End dispatcher_vocabulary.

(** ** Inputs on which the model is run *)

Section examples.
Local Existing Instance Z_float.

(** A table as read from a file of labels, with its default index: two rows
    of October 2000 and one of September 2000. *)
Definition example_table : DataFrame := {|
  columns := ["yr"; "month"; "day"; "hour"; "lat"; "lon"; "wind"];
  index_name := None;
  rows := [(0%Z, [VInt 2000; VInt 10; VInt 1; VInt 0; VFloat 40%Z; VFloat 312%Z; VStr "a"]);
           (1%Z, [VInt 2000; VInt 9; VInt 30; VInt 18; VFloat 26%Z; VFloat 283%Z; VStr "b"]);
           (2%Z, [VInt 2000; VInt 10; VInt 21; VInt 6; VFloat 15%Z; VFloat 301%Z; VStr "c"])]
|}.

Definition example_mapping : DBMetadataMapping :=
  [("year", "yr"); ("month", "month"); ("day", "day"); ("hour", "hour");
   ("lat", "lat"); ("lon", "lon")].

(** A second table, of another label, with a row of a month that the first
    table does not have. *)
Definition example_table2 : DataFrame := {|
  columns := ["year"; "month"; "day"; "hour"; "lat"; "lon"];
  index_name := None;
  rows := [(0%Z, [VInt 2000; VInt 10; VInt 3; VInt 12; VFloat 11%Z; VFloat 20%Z]);
           (1%Z, [VInt 2001; VInt 1; VInt 5; VInt 0; VFloat 12%Z; VFloat 21%Z])]
|}.

Definition example_mapping2 : DBMetadataMapping :=
  [("year", "year"); ("month", "month"); ("day", "day"); ("hour", "hour");
   ("lat", "lat"); ("lon", "lon")].

(** The first table with its rows relabelled 5, 6, 7, as a selection from a
    larger table would leave them. *)
Definition example_relabelled_table : DataFrame := {|
  columns := columns example_table;
  index_name := None;
  rows := (λ r, (r.1 + 5, r.2)%Z) <$> rows example_table
|}.

(** The partitions of the two tables by month. *)
Definition example_structure : dict Period Block :=
  match (__build_blocks_structure example_table example_mapping "month" false).2 with
  | Ok structure => structure
  | Raise _ => []
  end.

Definition example_structure2 : dict Period Block :=
  match (__build_blocks_structure example_table2 example_mapping2 "month" false).2 with
  | Ok structure => structure
  | Raise _ => []
  end.

(** The block of October 2000 of the first table. *)
Definition example_block : Block := {|
  columns := ["year"; "month"; "day"; "hour"; "lat"; "lon"];
  index_name := Some "index";
  rows := [(0%Z, [VInt 2000; VInt 10; VInt 1; VInt 0; VFloat 40%Z; VFloat 312%Z]);
           (2%Z, [VInt 2000; VInt 10; VInt 21; VInt 6; VFloat 15%Z; VFloat 301%Z])]
|}.

Definition example_structures : dict string (dict Period Block) :=
  [("cyclone", example_structure); ("no_cyclone", example_structure2)].

(** The tables and the mappings of two labels, a processing function that
    hands back one array per label of the period under a directory of
    channels, the file names, and a world in which nothing has happened
    yet. *)
Definition example_tables : dict string DataFrame :=
  [("cyclone", example_table); ("no_cyclone", example_table2)].

Definition example_mappings : dict string DBMetadataMapping :=
  [("cyclone", example_mapping); ("no_cyclone", example_mapping2)].

Definition example_file_utils : file_utils :=
  {| NAME_SEPARATOR := "_"; CSV_FILE_EXTENSION := "csv"; HDF5_FILE_EXTENSION := "h5" |}.

Definition example_processing_function : processing_function (list Z) :=
  λ period blocks,
    Ok ("/data/channel",
        (λ lb : string * Block, (lb.1, [Z.of_nat (length (rows lb.2))])) <$> blocks).

Definition example_world : World (list Z) :=
  {| g_processing_function := None; g_csv_save_options := None;
     running := CallerProcess; log := [] |}.

(** What the spec has the dispatcher return for these tables: for every
    period, for every label of the period, the paths of the two files. *)
Definition example_expected : extract_result :=
  let paths (label period : string) : label_paths :=
    [("data_block", "/data/channel/" +:+ label +:+ "/" +:+ period +:+ "_.h5");
     ("metadata_block", "/data/channel/" +:+ label +:+ "/" +:+ period +:+ "_.csv")] in
  ByPeriod
    [([VInt 2000; VInt 9], [("cyclone", paths "cyclone" "(2000, 9)")]);
     ([VInt 2000; VInt 10], [("cyclone", paths "cyclone" "(2000, 10)");
                             ("no_cyclone", paths "no_cyclone" "(2000, 10)")]);
     ([VInt 2001; VInt 1], [("no_cyclone", paths "no_cyclone" "(2001, 1)")])].

(** A grid whose latitudes are stored from north to south, two variables
    on it, and the operations taken as given: a rounding that leaves the
    coordinate as it is, and a date template that is used as the date. *)
Definition example_dataset : Dataset := {|
  coordinate := λ name, if decide (name = "latitude") then Some [50%Z; 40%Z; 30%Z] else None;
  select := λ sel,
    if decide (sel_name sel = "msl") then Ok [[1%Z; 2%Z]; [3%Z; 4%Z]]
    else Ok [[10%Z; 20%Z]; [30%Z; 40%Z]]
|}.

Definition example_time_series : XarrayTimeSeries := {| dataset := example_dataset |}.

Definition example_coordinates : coordinate_metadata_t := {|
  LAT := {| NETCDF_ATTR_NAME := "latitude"; RESOLUTION := 1%Z; NB_DECIMAL := 0 |};
  LON := {| NETCDF_ATTR_NAME := "longitude"; RESOLUTION := 1%Z; NB_DECIMAL := 0 |}
|}.

Definition example_msl_attributes : variable_attributes :=
  {| str_id := "msl"; netcdf_attribute_name := "msl";
     coordinate_metadata := example_coordinates; date_template := "2000-10-01T00" |}.

Definition example_msl : Variable_ := SingleLevelVariable example_msl_attributes.

Definition example_ta200 : Variable_ :=
  MultiLevelVariable
    {| str_id := "ta200"; netcdf_attribute_name := "t";
       coordinate_metadata := example_coordinates; date_template := "2000-10-01T00" |}
    200.

(** The selection for the frame of half-height and half-width 4 around
    latitude 40 and longitude 312 on this grid. *)
Definition example_selection : selection := {|
  sel_name := "msl"; sel_time := "2000-10-01T00"; sel_level := None;
  sel_latitude := (44%Z, 37%Z); sel_longitude := (308%Z, 315%Z)
|}.

Definition example_region_msl : Region := [[1%Z; 2%Z]; [3%Z; 4%Z]].
Definition example_region_ta200 : Region := [[10%Z; 20%Z]; [30%Z; 40%Z]].
Definition example_region_sum : Region := [[11%Z; 22%Z]; [33%Z; 44%Z]].

Definition example_round_nearest (x resolution : Z) (nb_decimal : Z) : Z := x.

Definition example_str_format (template : string) (time_dict : dict string Z)
    : result string := Ok template.

(** A processing function that hands back no data. *)
Definition example_silent_function : processing_function (list Z) :=
  λ period blocks, Ok ("/data/channel", []).


(** A loader that finds every description but one, and the settings of two
    extractions: the second one lists the description that is missing. *)
Definition example_load (path : string) : result string :=
  if decide (path = "missing.yml") then Raise FileNotFoundError else Ok path.

Definition example_config : ExtractionConfig.t string string := {|
  ExtractionConfig.str_id := Some "cyclones";
  ExtractionConfig.variable_file_paths := Some ["msl.yml"; "ta200.yml"];
  ExtractionConfig.label_file_paths := Some ["cyclone.yml"];
  ExtractionConfig._variables := Attr None;
  ExtractionConfig._labels := Attr None
|}.

Definition example_broken_config : ExtractionConfig.t string string := {|
  ExtractionConfig.str_id := Some "cyclones";
  ExtractionConfig.variable_file_paths := Some ["msl.yml"; "missing.yml"; "ta200.yml"];
  ExtractionConfig.label_file_paths := Some ["cyclone.yml"];
  ExtractionConfig._variables := Attr None;
  ExtractionConfig._labels := Attr None
|}.


End examples.

(** ** Vocabulary of the statements *)

(** Which exceptions a computation can raise. *)
Definition raises_only {A} (P : exn → Prop) (m : result A) : Prop :=
  ∀ e, m = Raise e → P e.

(** The errors of a lookup in a mapping or in a table. *)
Definition lookup_failure (e : exn) : Prop := e = KeyError ∨ e = ValueError.

(** A string that holds no underscore. *)
Definition no_underscore (s : string) : Prop :=
  "_"%char ∉ String.list_ascii_of_string s.

Section vocabulary.
Context `{Float64}.

(** C9 as the spec words it, for the in-place call: the caller's
    table after the call differs from the one before in its column names
    only. *)
Definition inplace_renames_only (dataframe : DataFrame)
    (db_metadata_mapping : DBMetadataMapping) (resolution : string) : Prop :=
  let after := (__build_blocks_structure dataframe db_metadata_mapping resolution true).1 in
  index_name after = index_name dataframe ∧ rows after = rows dataframe.

(** The cell of a row in the column of a given name. *)
Definition cell (df : DataFrame) (row : Z * list value) (column : string) : option value :=
  i ← list_index column (columns df); row.2 !! i.

(** Two decimal digits, the tens first: the rendering of a month, a day or
    an hour that the spec calls two-digit and zero-padded. *)
Definition two_digits (z : Z) : string :=
  String (ascii_of_nat (48 + Z.to_nat (z / 10)))
    (String (ascii_of_nat (48 + Z.to_nat (z mod 10))) "").

(** A row with a month, a day and an hour, integers of at most two digits. *)
Definition calendar_row (df : DataFrame) (row : Z * list value) (m d h : Z) : Prop :=
  cell df row TimeResolution.MONTH = Some (VInt m) ∧ (0 ≤ m ≤ 99)%Z
  ∧ cell df row TimeResolution.DAY = Some (VInt d) ∧ (0 ≤ d ≤ 99)%Z
  ∧ cell df row TimeResolution.HOUR = Some (VInt h) ∧ (0 ≤ h ≤ 99)%Z.

(** The table has the index of a table read from a file: every row is
    labelled with its position. *)
Definition positional_index (df : DataFrame) : Prop :=
  index df = RangeIndex (length (rows df)).

(** The mapping fits the table: the names of the columns are distinct, the
    mapping sends distinct fields to distinct columns of the table, and a
    column that bears the name of a field is mapped. *)
Definition mapping_fits (df : DataFrame) (db_metadata_mapping : DBMetadataMapping) : Prop :=
  NoDup (columns df)
  ∧ dict_wf db_metadata_mapping
  ∧ NoDup (dict_values db_metadata_mapping)
  ∧ (∀ column, column ∈ dict_values db_metadata_mapping → column ∈ columns df)
  ∧ (∀ column, column ∈ columns df → column ∈ dict_keys db_metadata_mapping →
       column ∈ dict_values db_metadata_mapping).

(** The mapping covers the canonical time fields. *)
Definition covers_time_fields (db_metadata_mapping : DBMetadataMapping) : Prop :=
  ∀ key, key ∈ TimeResolution.KEYS → key ∈ dict_keys db_metadata_mapping.

(** The fields that a resolution groups by: the time fields down to the
    resolution. *)
Definition grouping_keys (resolution : string) : list string :=
  match list_index resolution TimeResolution.KEYS with
  | Some degree => take (S degree) TimeResolution.KEYS
  | None => []
  end.

(** The column that a field is mapped to, and the position of a column. *)
Definition mapped (db_metadata_mapping : DBMetadataMapping) (key : string) : string :=
  default key (dict_get key db_metadata_mapping).

Definition column_index (cols : list string) (name : string) : nat :=
  default 0%nat (list_index name cols).

(** The name of a column once the table is renamed. *)
Definition canonical_name (db_metadata_mapping : DBMetadataMapping) (column : string)
    : string :=
  default column
    (dict_get column (dict_of_pairs ((λ kv, (kv.2, kv.1)) <$> db_metadata_mapping))).

(** A row of the table under the canonical names: its label, and for every
    field of the mapping the cell of the column that the field is mapped
    to. *)
Definition canonical_row (df : DataFrame) (db_metadata_mapping : DBMetadataMapping)
    (row : Z * list value) : Z * list value :=
  (row.1, (λ kc, default inhabitant (cell df row kc.2)) <$> db_metadata_mapping).

(** The table under the canonical names, restricted to the fields of the
    mapping, with its index named. *)
Definition canonical_table (df : DataFrame) (db_metadata_mapping : DBMetadataMapping)
    : DataFrame :=
  {| columns := dict_keys db_metadata_mapping;
     index_name := Some INDEX_NAME;
     rows := canonical_row df db_metadata_mapping <$> rows df |}.

(** The values of a row in the columns that a resolution groups by. *)
Definition row_period (df : DataFrame) (db_metadata_mapping : DBMetadataMapping)
    (resolution : string) (row : Z * list value) : Period :=
  (λ key, row.2 !!! column_index (columns df) (mapped db_metadata_mapping key))
    <$> grouping_keys resolution.

(** The block of a period: the canonical rows of the rows of the table that
    have the period, in the order of the table. *)
Definition period_block (df : DataFrame) (db_metadata_mapping : DBMetadataMapping)
    (resolution : string) (period : Period) : Block :=
  {| columns := dict_keys db_metadata_mapping;
     index_name := Some INDEX_NAME;
     rows := (λ p, rows (canonical_table df db_metadata_mapping) !!! p)
               <$> positions_of period
                     (row_period df db_metadata_mapping resolution <$> rows df) |}.

(** The periods of a table, sorted. *)
Definition table_periods (df : DataFrame) (db_metadata_mapping : DBMetadataMapping)
    (resolution : string) : list Period :=
  merge_sort tuple_le
    (remove_dups (row_period df db_metadata_mapping resolution <$> rows df)).

(** A variable that is extracted directly. *)
Definition is_leaf (variable : Variable_) : Prop :=
  match variable with
  | ComputedVariable _ _ _ => False
  | _ => True
  end.

(** The attributes of a variable that is extracted directly, and its level
    if it has one. *)
Definition leaf_attributes (variable : Variable_) : option variable_attributes :=
  match variable with
  | SingleLevelVariable a | MultiLevelVariable a _ => Some a
  | ComputedVariable _ _ _ => None
  end.

Definition leaf_level (variable : Variable_) : option Z :=
  match variable with
  | MultiLevelVariable _ level => Some level
  | _ => None
  end.

(** The latitude axis is stored in descending order: it starts above where
    it ends. *)
Definition descending (lat_series : list float) : bool :=
  match head lat_series, last lat_series with
  | Some first, Some final => fltb final first
  | _, _ => false
  end.

(** The blocks that the labels have for a period, label by label in the
    order of the labels. *)
Definition blocks_of (period : Period) (structures : dict string (dict Period Block))
    : dict string Block :=
  omap (λ ls, (λ block, (ls.1, block)) <$> dict_get period ls.2) structures.

(** The periods of all the labels, each once. *)
Definition periods_of (structures : dict string (dict Period Block)) : list Period :=
  set_of (concat (dict_keys <$> dict_values structures)).

(** Two merged structures with the same content: the same periods, and for
    every period the same labels with the same blocks, in whatever order. *)
Definition merged_equiv (m1 m2 : dict Period (dict string Block)) : Prop :=
  ∀ period,
    match dict_get period m1, dict_get period m2 with
    | Some blocks1, Some blocks2 => dict_equiv blocks1 blocks2
    | None, None => True
    | _, _ => False
    end.

End vocabulary.

(** * Facts *)

(** ** The Python prelude *)

Section prelude_facts.
Context {K V : Type} `{EqDecision K}.
Implicit Types (d : dict K V) (k : K) (v : V).

Lemma dict_get_set_eq d k v : dict_get k (dict_set k v d) = Some v.
Proof.
  induction d as [|[k' v'] d IH]; simpl.
  - by rewrite decide_True.
  - destruct (decide (k = k')) as [->|Hne]; simpl.
    + by rewrite decide_True.
    + by rewrite decide_False.
Qed.

Lemma dict_get_set_ne d k k' v : k ≠ k' → dict_get k' (dict_set k v d) = dict_get k' d.
Proof.
  intros Hne. induction d as [|[k0 v0] d IH]; simpl.
  - by rewrite decide_False.
  - destruct (decide (k = k0)) as [->|Hne0]; simpl.
    + by rewrite !decide_False.
    + destruct (decide (k' = k0)); done.
Qed.

Lemma dict_get_set d k k' v :
  dict_get k' (dict_set k v d) = if decide (k = k') then Some v else dict_get k' d.
Proof.
  destruct (decide (k = k')) as [->|Hne].
  - apply dict_get_set_eq.
  - by apply dict_get_set_ne.
Qed.

Lemma dict_get_None d k : dict_get k d = None ↔ k ∉ dict_keys d.
Proof.
  unfold dict_keys. induction d as [|[k' v'] d IH]; simpl.
  - split; [intros _; apply not_elem_of_nil | done].
  - rewrite not_elem_of_cons. destruct (decide (k = k')) as [->|Hne].
    + split; [done | intros [? _]; done].
    + rewrite IH. tauto.
Qed.

Lemma dict_get_is_Some d k : is_Some (dict_get k d) ↔ k ∈ dict_keys d.
Proof.
  rewrite <- not_eq_None_Some, dict_get_None.
  destruct (decide (k ∈ dict_keys d)); tauto.
Qed.

Lemma dict_get_Some_elem d k v : dict_get k d = Some v → (k, v) ∈ d.
Proof.
  induction d as [|[k' v'] d IH]; simpl; [done|].
  destruct (decide (k = k')) as [->|Hne].
  - intros [= ->]. apply elem_of_cons; by left.
  - intros Hget. apply elem_of_cons; right; auto.
Qed.

Lemma dict_get_elem_wf d k v : dict_wf d → (k, v) ∈ d → dict_get k d = Some v.
Proof.
  unfold dict_wf, dict_keys. induction d as [|[k' v'] d IH]; simpl.
  - intros _ Hin. by apply elem_of_nil in Hin.
  - intros Hnd Hin. apply NoDup_cons in Hnd as [Hnotin Hnd].
    apply elem_of_cons in Hin as [[= -> ->]|Hin].
    + by rewrite decide_True.
    + rewrite decide_False; [auto|].
      intros ->. apply Hnotin. apply list_elem_of_fmap. by exists (k', v).
Qed.

Lemma dict_keys_set d k v :
  dict_keys (dict_set k v d) = if decide (k ∈ dict_keys d) then dict_keys d else dict_keys d ++ [k].
Proof.
  unfold dict_keys. induction d as [|[k' v'] d IH].
  - case_decide as Hin; [by apply elem_of_nil in Hin | done].
  - cbn [dict_set]. destruct (decide (k = k')) as [->|Hne].
    + rewrite decide_True; [done | apply elem_of_cons; by left].
    + rewrite fmap_cons, IH. destruct (decide (k ∈ d.*1)) as [Hin|Hnotin].
      * rewrite decide_True; [done | apply elem_of_cons; by right].
      * rewrite decide_False; [done|]. rewrite fmap_cons, not_elem_of_cons. done.
Qed.

Lemma dict_wf_set d k v : dict_wf d → dict_wf (dict_set k v d).
Proof.
  unfold dict_wf. intros Hwf. rewrite dict_keys_set. case_decide; [done|].
  apply NoDup_app. split_and!; [done| |apply NoDup_singleton].
  intros x Hx Hx'. apply list_elem_of_singleton in Hx' as ->. done.
Qed.

Lemma dict_get_perm d d' k : dict_wf d → d ≡ₚ d' → dict_get k d = dict_get k d'.
Proof.
  intros Hwf Hperm.
  assert (dict_wf d') as Hwf'.
  { unfold dict_wf, dict_keys in *. by rewrite <- Hperm. }
  destruct (dict_get k d) as [v|] eqn:Hget.
  - symmetry. apply dict_get_elem_wf; [done|]. rewrite <- Hperm.
    by apply dict_get_Some_elem.
  - symmetry. apply dict_get_None. apply dict_get_None in Hget.
    unfold dict_keys in *. by rewrite <- Hperm.
Qed.

Lemma dict_contains_true d k : dict_contains k d = true ↔ k ∈ dict_keys d.
Proof. unfold dict_contains. rewrite bool_decide_eq_true. apply dict_get_is_Some. Qed.

Lemma list_index_None (x : K) (l : list K) : list_index x l = None ↔ x ∉ l.
Proof.
  induction l as [|y l IH]; simpl.
  - split; [intros _; apply not_elem_of_nil | done].
  - rewrite not_elem_of_cons. destruct (decide (x = y)) as [->|Hne].
    + split; [done | intros [? _]; done].
    + rewrite fmap_None, IH. tauto.
Qed.

Lemma list_index_Some (x : K) (l : list K) i :
  list_index x l = Some i → l !! i = Some x.
Proof.
  revert i. induction l as [|y l IH]; intros i; simpl; [done|].
  destruct (decide (x = y)) as [->|Hne].
  - by intros [= <-].
  - intros Hi. apply fmap_Some in Hi as (j & Hj & ->). simpl. auto.
Qed.

End prelude_facts.

Lemma raises_only_Ok {A} P (a : A) : raises_only P (Ok a).
Proof. intros e. discriminate. Qed.

Lemma raises_only_Raise {A} (P : exn → Prop) e : P e → raises_only P (@Raise A e).
Proof. intros HP e' [= <-]. done. Qed.

Lemma raises_only_bind {A B} P (m : result A) (f : A → result B) :
  raises_only P m → (∀ a, m = Ok a → raises_only P (f a)) → raises_only P (m ≫= f).
Proof.
  intros Hm Hf. destruct m as [a|e]; simpl.
  - by apply Hf.
  - intros e' [= <-]. by apply Hm.
Qed.

Lemma raises_only_traverse {A B} P (f : A → result B) l :
  (∀ x, x ∈ l → raises_only P (f x)) → raises_only P (traverse f l).
Proof.
  induction l as [|x l IH]; intros Hf; simpl.
  - apply raises_only_Ok.
  - apply raises_only_bind; [apply Hf, elem_of_cons; by left|].
    intros y _. apply raises_only_bind.
    + apply IH. intros z Hz. apply Hf, elem_of_cons; by right.
    + intros ys _. apply raises_only_Ok.
Qed.

Lemma raises_only_for_each {A S} P (body : S → A → result S) l s :
  (∀ s x, x ∈ l → raises_only P (body s x)) → raises_only P (for_each body s l).
Proof.
  revert s. induction l as [|x l IH]; intros s Hbody; simpl.
  - apply raises_only_Ok.
  - apply raises_only_bind; [apply Hbody, elem_of_cons; by left|].
    intros s' _. apply IH. intros s'' z Hz. apply Hbody, elem_of_cons; by right.
Qed.

Lemma raises_only_dict_getitem {K V} `{EqDecision K} (P : exn → Prop) (k : K) (d : dict K V) :
  P KeyError → raises_only P (dict_getitem k d).
Proof.
  intros HP. unfold dict_getitem. destruct (dict_get k d).
  - apply raises_only_Ok.
  - by apply raises_only_Raise.
Qed.

(** ** The temporal block partitioner: errors and effects *)

Section partitioner_effects.
Context `{Float64}.

Lemma groupby_indices_raises df names : raises_only lookup_failure (groupby_indices df names).
Proof.
  unfold groupby_indices. case_decide.
  - apply raises_only_Raise. by right.
  - apply raises_only_bind; [|intros; apply raises_only_Ok].
    apply raises_only_traverse. intros name _. unfold column_position.
    destruct (positions_of name (columns df)) as [|i [|j l]].
    + apply raises_only_Raise. by left.
    + apply raises_only_Ok.
    + apply raises_only_Raise. by right.
Qed.

Lemma getitem_columns_raises keys df : raises_only lookup_failure (getitem_columns keys df).
Proof.
  unfold getitem_columns. apply raises_only_bind; [|intros; apply raises_only_Ok].
  apply raises_only_traverse. intros k _.
  destruct (positions_of k (columns df)).
  - apply raises_only_Raise. by left.
  - apply raises_only_Ok.
Qed.

Lemma loc_raises labels df : raises_only lookup_failure (loc labels df).
Proof.
  unfold loc. apply raises_only_bind; [|intros; apply raises_only_Ok].
  apply raises_only_traverse. intros l _.
  destruct (filter _ (rows df)).
  - apply raises_only_Raise. by left.
  - apply raises_only_Ok.
Qed.

(** With a known resolution the partitioner raises nothing but the lookup
    errors of the mapping and of pandas. *)
Lemma build_blocks_structure_known_raises dataframe db_metadata_mapping resolution inplace :
  resolution ∈ TimeResolution.KEYS →
  raises_only lookup_failure
    (__build_blocks_structure dataframe db_metadata_mapping resolution inplace).2.
Proof.
  intros Hin. unfold __build_blocks_structure.
  destruct (list_index resolution TimeResolution.KEYS) as [degree|] eqn:Hidx.
  2:{ apply list_index_None in Hidx. done. }
  match goal with |- context [match ?m with Ok _ => _ | Raise _ => _ end] =>
    assert (raises_only lookup_failure m) as Hm; [|destruct m as [indices|e]] end.
  { apply raises_only_bind.
    - apply raises_only_traverse. intros key _. apply raises_only_dict_getitem. by left.
    - intros names _. apply groupby_indices_raises. }
  - simpl. apply raises_only_bind; [apply getitem_columns_raises|].
    intros restricted _. apply raises_only_for_each. intros result index _.
    apply raises_only_bind; [apply raises_only_dict_getitem; by left|].
    intros positions _. apply raises_only_bind; [apply loc_raises|].
    intros block _. apply raises_only_Ok.
  - simpl. intros e' [= <-]. by apply Hm.
Qed.

(** C6. The partitioner raises a ConfigurationError exactly when the declared
    time resolution is not one of the supported granularities; the error
    names the resolution; for a supported resolution no ConfigurationError is
    raised. *)
Theorem build_blocks_structure_ConfigurationError
    dataframe db_metadata_mapping resolution inplace :
  let outcome :=
    (__build_blocks_structure dataframe db_metadata_mapping resolution inplace).2 in
  (resolution ∉ TimeResolution.KEYS ↔
     outcome = Raise (ConfigurationError
                        ("'" +:+ resolution +:+ "' is not a known time resolution")))
  ∧ (resolution ∈ TimeResolution.KEYS ↔
       ∀ msg, outcome ≠ Raise (ConfigurationError msg)).
Proof.
  intros outcome.
  assert (resolution ∉ TimeResolution.KEYS →
          outcome = Raise (ConfigurationError
                             ("'" +:+ resolution +:+ "' is not a known time resolution")))
    as Hunknown.
  { intros Hnotin. subst outcome. unfold __build_blocks_structure.
    apply list_index_None in Hnotin. by rewrite Hnotin. }
  assert (resolution ∈ TimeResolution.KEYS →
          ∀ msg, outcome ≠ Raise (ConfigurationError msg)) as Hknown.
  { intros Hin msg Hraise.
    apply (build_blocks_structure_known_raises dataframe db_metadata_mapping _ inplace Hin)
      in Hraise as [?|?]; discriminate. }
  split; split; try done.
  - intros Hraise Hin. by apply (Hknown Hin) in Hraise.
  - intros Hnone. destruct (decide (resolution ∈ TimeResolution.KEYS)) as [|Hnotin]; [done|].
    apply Hunknown in Hnotin. by apply Hnone in Hnotin.
Qed.

(** The reverse of a mapping sends a column name to a field that the mapping
    sends to it. *)
Lemma reverse_mapping_Some (db_metadata_mapping : DBMetadataMapping) column key :
  dict_get column (dict_of_pairs ((λ kv, (kv.2, kv.1)) <$> db_metadata_mapping)) = Some key →
  (key, column) ∈ db_metadata_mapping.
Proof.
  unfold dict_of_pairs.
  assert (∀ (acc : dict string string),
    dict_get column
      (foldl (λ d kv, dict_set kv.1 kv.2 d) acc ((λ kv, (kv.2, kv.1)) <$> db_metadata_mapping))
      = Some key →
    (key, column) ∈ db_metadata_mapping ∨ dict_get column acc = Some key) as Hgen.
  { induction db_metadata_mapping as [|[k c] m IH]; intros acc; simpl; [by right|].
    intros Hget. apply IH in Hget as [Hin|Hget].
    - left. apply elem_of_cons. by right.
    - rewrite dict_get_set in Hget. case_decide as Heq.
      + injection Hget as ->. subst c. left. apply elem_of_cons. by left.
      + by right. }
  intros Hget. apply Hgen in Hget as [?|Hget]; [done|]. discriminate.
Qed.

Lemma reverse_mapping_None (db_metadata_mapping : DBMetadataMapping) column :
  dict_get column (dict_of_pairs ((λ kv, (kv.2, kv.1)) <$> db_metadata_mapping)) = None →
  column ∉ dict_values db_metadata_mapping.
Proof.
  unfold dict_of_pairs, dict_values.
  assert (∀ (acc : dict string string),
    dict_get column
      (foldl (λ d kv, dict_set kv.1 kv.2 d) acc ((λ kv, (kv.2, kv.1)) <$> db_metadata_mapping))
      = None →
    (column ∉ db_metadata_mapping.*2) ∧ dict_get column acc = None) as Hgen.
  { induction db_metadata_mapping as [|[k c] m IH]; intros acc; simpl.
    - intros ->. split; [apply not_elem_of_nil | done].
    - intros Hget. apply IH in Hget as [Hnotin Hget].
      rewrite dict_get_set in Hget. case_decide as Heq; [done|].
      split; [|done]. apply not_elem_of_cons. split; [congruence | done]. }
  intros Hget. by apply Hgen in Hget as [? _].
Qed.

(** C9, as amended. Without in-place renaming the caller's table is left as
    it was, whatever the call returns or raises. With in-place renaming the
    rows of the caller's table are left as they were; the table is untouched
    when the call raises before it renames, and otherwise every column that
    the mapping names gets the canonical field name, the other columns keep
    theirs, and the index of the table is given the name "index". *)
Theorem build_blocks_structure_frame dataframe db_metadata_mapping resolution :
  (__build_blocks_structure dataframe db_metadata_mapping resolution false).1 = dataframe
  ∧ (let outcome := __build_blocks_structure dataframe db_metadata_mapping resolution true in
     let renamed (after : DataFrame) :=
       index_name after = Some INDEX_NAME
       ∧ Forall2 (λ column column',
            (column', column) ∈ db_metadata_mapping
            ∨ (column' = column ∧ column ∉ dict_values db_metadata_mapping))
           (columns dataframe) (columns after) in
     rows outcome.1 = rows dataframe
     ∧ (outcome.1 = dataframe ∨ renamed outcome.1)
     ∧ (is_Ok outcome.2 → renamed outcome.1)).
Proof.
  unfold __build_blocks_structure.
  destruct (list_index resolution TimeResolution.KEYS) as [degree|]; simpl.
  2:{ split_and!; [done | done | by left | by intros [? ?]]. }
  match goal with |- context [match ?m with Ok _ => _ | Raise _ => _ end] =>
    destruct m as [indices|e] end; simpl.
  2:{ split_and!; [done | done | by left | by intros [? ?]]. }
  assert (Forall2 (λ column column',
            (column', column) ∈ db_metadata_mapping
            ∨ (column' = column ∧ column ∉ dict_values db_metadata_mapping))
           (columns dataframe)
           ((λ c, default c (dict_get c
               (dict_of_pairs ((λ kv, (kv.2, kv.1)) <$> db_metadata_mapping))))
              <$> columns dataframe)) as Hcolumns.
  { apply Forall2_fmap_r, Forall_Forall2_diag, Forall_forall.
    intros column _. simpl.
    destruct (dict_get column
                (dict_of_pairs ((λ kv, (kv.2, kv.1)) <$> db_metadata_mapping)))
      as [key|] eqn:Hget; simpl.
    - left. by apply reverse_mapping_Some.
    - right. split; [done|]. by apply reverse_mapping_None. }
  split_and!; [done | done | by right | done].
Qed.

End partitioner_effects.

(** C9, the counterexample. A table whose index has no name, renamed in
    place: after the call the index is named "index". *)
Lemma build_blocks_structure_inplace_names_index :
  ¬ @inplace_renames_only Z_float example_table example_mapping "month".
Proof. intros [Hname _]. vm_compute in Hname. discriminate. Qed.

(** ** The cross-label block merger *)

Section dict_append_facts.
Context {K V : Type} `{EqDecision K}.
Implicit Types (d : dict K V) (k : K) (v : V).

Lemma dict_set_fresh d k v : k ∉ dict_keys d → dict_set k v d = d ++ [(k, v)].
Proof.
  unfold dict_keys. induction d as [|[k' v'] d IH]; simpl; [done|].
  rewrite not_elem_of_cons. intros [Hne Hnotin].
  rewrite decide_False by done. by rewrite IH.
Qed.

Lemma dict_set_last d k v v0 :
  k ∉ dict_keys d → dict_set k v (d ++ [(k, v0)]) = d ++ [(k, v)].
Proof.
  unfold dict_keys. induction d as [|[k' v'] d IH]; simpl.
  - intros _. by rewrite decide_True.
  - rewrite not_elem_of_cons. intros [Hne Hnotin].
    rewrite decide_False by done. by rewrite IH.
Qed.

Lemma dict_get_last d k v : k ∉ dict_keys d → dict_get k (d ++ [(k, v)]) = Some v.
Proof.
  unfold dict_keys. induction d as [|[k' v'] d IH]; simpl.
  - intros _. by rewrite decide_True.
  - rewrite not_elem_of_cons. intros [Hne Hnotin].
    rewrite decide_False by done. auto.
Qed.

Lemma dict_get_app d d' k :
  dict_get k (d ++ d') = match dict_get k d with Some v => Some v | None => dict_get k d' end.
Proof.
  induction d as [|[k' v'] d IH]; simpl; [done|]. by case_decide.
Qed.

(** Pairs with distinct keys make the dictionary that lists them. *)
Lemma dict_set_all_fresh (l acc : list (K * V)) :
  NoDup (acc ++ l).*1 → foldl (λ d kv, dict_set kv.1 kv.2 d) acc l = acc ++ l.
Proof.
  revert acc. induction l as [|[k v] l IH]; intros acc Hnd; simpl.
  - by rewrite app_nil_r.
  - rewrite dict_set_fresh.
    + rewrite IH; rewrite <- app_assoc; done.
    + rewrite fmap_app in Hnd. apply NoDup_app in Hnd as (_ & Hdisj & _).
      intros Hin. apply (Hdisj k Hin). simpl. apply elem_of_cons. by left.
Qed.

Lemma dict_of_pairs_wf (l : list (K * V)) : dict_wf l → dict_of_pairs l = l.
Proof. intros Hwf. unfold dict_of_pairs. by rewrite dict_set_all_fresh. Qed.

Lemma dict_keys_tabulate (f : K → V) (l : list K) :
  dict_keys ((λ k, (k, f k)) <$> l) = l.
Proof.
  unfold dict_keys. induction l as [|k l IH]; [done|].
  rewrite !fmap_cons. simpl. by rewrite IH.
Qed.

End dict_append_facts.

Section merger.
Context `{Float64}.
Implicit Types (structures : dict string (dict Period Block)).
Implicit Types (result : dict Period (dict string Block)) (period : Period).

Lemma blocks_of_cons_Some period label structure structures block :
  dict_get period structure = Some block →
  blocks_of period ((label, structure) :: structures)
  = (label, block) :: blocks_of period structures.
Proof. intros Hget. unfold blocks_of. simpl. by rewrite Hget. Qed.

Lemma blocks_of_cons_None period label structure structures :
  dict_get period structure = None →
  blocks_of period ((label, structure) :: structures) = blocks_of period structures.
Proof. intros Hget. unfold blocks_of. simpl. by rewrite Hget. Qed.

(** The inner loop once the period has its entry, which is the last one. *)
Lemma merge_labels_present period result blocks structures :
  period ∉ dict_keys result →
  foldl (merge_label period) (result ++ [(period, blocks)]) structures
  = result ++ [(period, foldl (λ d kv, dict_set kv.1 kv.2 d) blocks
                           (blocks_of period structures))].
Proof.
  intros Hfresh. revert blocks.
  induction structures as [|[label structure] structures IH]; intros blocks; [done|].
  destruct (dict_get period structure) as [block|] eqn:Hget.
  - rewrite (blocks_of_cons_Some _ _ _ _ _ Hget). simpl. rewrite Hget.
    assert (dict_contains period (result ++ [(period, blocks)]) = true) as ->.
    { apply dict_contains_true. unfold dict_keys. rewrite fmap_app.
      apply elem_of_app. right. apply elem_of_cons. by left. }
    rewrite dict_get_last by done. simpl. rewrite dict_set_last by done. apply IH.
  - rewrite (blocks_of_cons_None _ _ _ _ Hget). simpl. rewrite Hget. apply IH.
Qed.

(** The inner loop for a period that has no entry yet. *)
Lemma merge_labels_fresh period result structures :
  period ∉ dict_keys result →
  foldl (merge_label period) result structures
  = match blocks_of period structures with
    | [] => result
    | blocks => result ++ [(period, dict_of_pairs blocks)]
    end.
Proof.
  intros Hfresh.
  induction structures as [|[label structure] structures IH]; [done|].
  destruct (dict_get period structure) as [block|] eqn:Hget.
  - rewrite (blocks_of_cons_Some _ _ _ _ _ Hget). simpl. rewrite Hget.
    assert (dict_contains period result = false) as ->.
    { apply not_true_iff_false. by rewrite dict_contains_true. }
    rewrite (dict_set_fresh result) by done.
    rewrite dict_get_last by done. simpl. rewrite dict_set_last by done.
    by rewrite merge_labels_present.
  - rewrite (blocks_of_cons_None _ _ _ _ Hget). simpl. rewrite Hget. apply IH.
Qed.

Lemma blocks_of_labels period structures :
  (blocks_of period structures).*1 `sublist_of` structures.*1.
Proof.
  induction structures as [|[label structure] structures IH]; [done|].
  destruct (dict_get period structure) as [block|] eqn:Hget.
  - rewrite (blocks_of_cons_Some _ _ _ _ _ Hget). simpl. by apply sublist_skip.
  - rewrite (blocks_of_cons_None _ _ _ _ Hget). simpl. by apply sublist_cons.
Qed.

Lemma blocks_of_wf period structures :
  dict_wf structures → dict_wf (blocks_of period structures).
Proof.
  unfold dict_wf, dict_keys. intros Hwf.
  eapply sublist_NoDup; [done | apply blocks_of_labels].
Qed.

(** The blocks of a period, looked up by label. *)
Lemma dict_get_blocks_of period structures label :
  dict_wf structures →
  dict_get label (blocks_of period structures)
  = dict_get label structures ≫= dict_get period.
Proof.
  unfold dict_wf, dict_keys.
  induction structures as [|[label' structure] structures IH]; [done|].
  rewrite fmap_cons. intros Hnd. apply NoDup_cons in Hnd as [Hnotin Hnd].
  destruct (dict_get period structure) as [block|] eqn:Hget.
  - rewrite (blocks_of_cons_Some _ _ _ _ _ Hget). simpl.
    destruct (decide (label = label')) as [->|Hne]; simpl; [done | auto].
  - rewrite (blocks_of_cons_None _ _ _ _ Hget). simpl.
    destruct (decide (label = label')) as [->|Hne]; simpl; [|auto].
    rewrite Hget. apply dict_get_None. intros Hin. apply Hnotin.
    eapply elem_of_sublist; [done | apply blocks_of_labels].
Qed.

Lemma elem_of_periods_of period structures :
  period ∈ periods_of structures
  ↔ ∃ label structure, (label, structure) ∈ structures ∧ period ∈ dict_keys structure.
Proof.
  unfold periods_of, set_of, dict_values. rewrite elem_of_remove_dups.
  rewrite list_elem_of_In, in_concat. setoid_rewrite <- list_elem_of_In. split.
  - intros (keys & Hkeys & Hin).
    apply list_elem_of_fmap in Hkeys as (structure & -> & Hstructure).
    apply list_elem_of_fmap in Hstructure as ([label structure'] & -> & Hitem).
    by exists label, structure'.
  - intros (label & structure & Hitem & Hin). exists (dict_keys structure).
    split; [|done]. apply list_elem_of_fmap. exists structure. split; [done|].
    apply list_elem_of_fmap. by exists (label, structure).
Qed.

Lemma blocks_of_nonempty period structures :
  period ∈ periods_of structures → blocks_of period structures ≠ [].
Proof.
  rewrite elem_of_periods_of. intros (label & structure & Hitem & Hin).
  apply dict_get_is_Some in Hin as [block Hget].
  assert ((label, block) ∈ blocks_of period structures) as Hblock.
  { unfold blocks_of. apply list_elem_of_omap. exists (label, structure).
    split; [done|]. simpl. by rewrite Hget. }
  intros Hnil. rewrite Hnil in Hblock. by apply elem_of_nil in Hblock.
Qed.

(** The outer loop. *)
Lemma merge_periods structures result periods :
  dict_wf structures →
  NoDup periods →
  (∀ period, period ∈ periods → period ∉ dict_keys result) →
  (∀ period, period ∈ periods → blocks_of period structures ≠ []) →
  foldl (λ result period, foldl (merge_label period) result structures) result periods
  = result ++ ((λ period, (period, blocks_of period structures)) <$> periods).
Proof.
  intros Hwf. revert result.
  induction periods as [|period periods IH]; intros result Hnd Hfresh Hblocks; simpl.
  - by rewrite app_nil_r.
  - apply NoDup_cons in Hnd as [Hnotin Hnd].
    rewrite merge_labels_fresh by (apply Hfresh, elem_of_cons; by left).
    destruct (blocks_of period structures) as [|b bs] eqn:Hb.
    { exfalso. apply (Hblocks period); [apply elem_of_cons; by left | done]. }
    rewrite dict_of_pairs_wf by (rewrite <- Hb; by apply blocks_of_wf).
    rewrite IH; [by rewrite <- app_assoc | done | | ].
    + intros p Hp. unfold dict_keys. rewrite fmap_app, not_elem_of_app. split.
      * apply Hfresh, elem_of_cons. by right.
      * simpl. rewrite not_elem_of_cons. split; [|apply not_elem_of_nil].
        intros ->. done.
    + intros p Hp. apply Hblocks, elem_of_cons. by right.
Qed.

(** The merger in one equation: one entry per period, with the blocks that
    the labels have for it. *)
Lemma merge_block_structures_eq structures :
  dict_wf structures →
  __merge_block_structures structures
  = (λ period, (period, blocks_of period structures)) <$> periods_of structures.
Proof.
  intros Hwf. unfold __merge_block_structures. fold (periods_of structures).
  rewrite merge_periods; [done | done | apply NoDup_remove_dups | | ].
  - intros p _. apply not_elem_of_nil.
  - intros p. apply blocks_of_nonempty.
Qed.

Lemma dict_get_merge_block_structures structures period :
  dict_wf structures →
  dict_get period (__merge_block_structures structures)
  = if decide (period ∈ periods_of structures)
    then Some (blocks_of period structures) else None.
Proof.
  intros Hwf. rewrite merge_block_structures_eq by done.
  case_decide as Hin.
  - apply dict_get_elem_wf.
    + unfold dict_wf. rewrite dict_keys_tabulate. apply NoDup_remove_dups.
    + apply list_elem_of_fmap. by exists period.
  - apply dict_get_None. by rewrite dict_keys_tabulate.
Qed.

(** C4. The keys of the merged mapping are the periods of all the labels;
    every period maps to exactly the labels that have a block for it, each
    with that block; a label without a block for a period is not a key of
    the inner mapping of that period. *)
Theorem merge_block_structures_spec structures :
  dict_wf structures →
  let merged := __merge_block_structures structures in
  dict_wf merged
  ∧ (∀ period, period ∈ dict_keys merged
       ↔ ∃ label structure, (label, structure) ∈ structures ∧ period ∈ dict_keys structure)
  ∧ (∀ period blocks, dict_get period merged = Some blocks →
       dict_wf blocks
       ∧ ∀ label, dict_get label blocks = dict_get label structures ≫= dict_get period).
Proof.
  intros Hwf merged. split_and!.
  - subst merged. rewrite merge_block_structures_eq by done.
    unfold dict_wf. rewrite dict_keys_tabulate. apply NoDup_remove_dups.
  - intros period. rewrite <- elem_of_periods_of, <- dict_get_is_Some.
    subst merged. rewrite dict_get_merge_block_structures by done.
    case_decide; [by split | split; [by intros [? ?] | done]].
  - intros period blocks. subst merged.
    rewrite dict_get_merge_block_structures by done.
    case_decide; [|done]. intros [= <-]. split.
    + by apply blocks_of_wf.
    + intros label. by apply dict_get_blocks_of.
Qed.

(** Supplying the labels in another order changes nothing in the content of
    the merged mapping. *)
Lemma merge_block_structures_perm structures structures' :
  dict_wf structures → structures ≡ₚ structures' →
  merged_equiv (__merge_block_structures structures) (__merge_block_structures structures').
Proof.
  intros Hwf Hperm period.
  assert (dict_wf structures') as Hwf'.
  { unfold dict_wf, dict_keys in *. by rewrite <- Hperm. }
  rewrite !dict_get_merge_block_structures by done.
  assert (period ∈ periods_of structures ↔ period ∈ periods_of structures') as Hperiods.
  { rewrite !elem_of_periods_of. by setoid_rewrite Hperm. }
  destruct (decide (period ∈ periods_of structures)) as [Hin|Hnotin].
  - rewrite decide_True by tauto. intros label.
    rewrite !dict_get_blocks_of by done. by rewrite (dict_get_perm _ _ _ Hwf Hperm).
  - rewrite decide_False by tauto. done.
Qed.

(** C7. Merging two per-label partitions gives the same content whichever of
    the two labels is supplied first. *)
Theorem merge_block_structures_comm label_a label_b (A B : dict Period Block) :
  label_a ≠ label_b →
  merged_equiv (__merge_block_structures [(label_a, A); (label_b, B)])
               (__merge_block_structures [(label_b, B); (label_a, A)]).
Proof.
  intros Hne. apply merge_block_structures_perm.
  - unfold dict_wf. simpl. apply NoDup_cons. split.
    + rewrite list_elem_of_singleton. done.
    + apply NoDup_singleton.
  - apply perm_swap.
Qed.

End merger.

(** The merger on the partitions of the two example tables. *)
Lemma merge_block_structures_spec_witness :
  dict_wf example_structures
  ∧ dict_wf (@__merge_block_structures Z_float example_structures).
Proof.
  assert (dict_wf example_structures) as Hwf by (unfold dict_wf; compute_done).
  split; [exact Hwf|].
  exact (proj1 (@merge_block_structures_spec Z_float example_structures Hwf)).
Defined.

(** The two orders of the labels of the examples. *)
Lemma merge_block_structures_comm_witness :
  "cyclone" ≠ "no_cyclone"
  ∧ merged_equiv
      (@__merge_block_structures Z_float
         [("cyclone", example_structure); ("no_cyclone", example_structure2)])
      (@__merge_block_structures Z_float
         [("no_cyclone", example_structure2); ("cyclone", example_structure)]).
Proof.
  assert ("cyclone" ≠ "no_cyclone") as Hne by (intros [=]).
  split; [exact Hne|].
  exact (@merge_block_structures_comm Z_float "cyclone" "no_cyclone"
           example_structure example_structure2 Hne).
Defined.

(** ** The record converter *)

(** Membership in a list that is written out. *)
Ltac listed :=
  repeat first [apply list_elem_of_here | apply list_elem_of_further].

Section converter.
Context `{Float64}.

Lemma format_02d_two_digits (z : Z) :
  (0 ≤ z ≤ 99)%Z → format_02d (VInt z) = Ok (two_digits z).
Proof.
  intros Hz.
  assert (Forall (λ z, format_02d (VInt z) = Ok (two_digits z)) (seqZ 0 100)) as Hall.
  { apply Forall_forall. intros x Hx. apply elem_of_seqZ in Hx. revert x Hx.
    assert (∀ n : nat, (n < 100)%nat →
              format_02d (VInt (Z.of_nat n)) = Ok (two_digits (Z.of_nat n))) as Hnat.
    { intros n Hn. do 100 (destruct n as [|n]; [reflexivity|]). lia. }
    intros x Hx. specialize (Hnat (Z.to_nat x)). rewrite Z2Nat.id in Hnat by lia.
    apply Hnat. lia. }
  rewrite Forall_forall in Hall. apply Hall, elem_of_seqZ. lia.
Qed.

(** A record of a table with distinct column names holds the cells of its
    row. *)
Lemma dict_get_zip (cols : list string) (cells : list value) column :
  NoDup cols → length cells = length cols →
  dict_get column (dict_of_pairs (zip cols cells))
  = list_index column cols ≫= (cells !!.).
Proof.
  intros Hnd Hlen.
  rewrite dict_of_pairs_wf.
  2:{ unfold dict_wf, dict_keys. rewrite fst_zip by lia. done. }
  revert cells Hlen. induction cols as [|c cols IH]; intros cells Hlen.
  - done.
  - destruct cells as [|v cells]; [done|]. simpl in *.
    apply NoDup_cons in Hnd as [Hnotin Hnd].
    destruct (decide (column = c)) as [->|Hne]; [done|].
    rewrite IH by (done || lia). by destruct (list_index column cols).
Qed.

Lemma to_dict_records_get block row column :
  NoDup (columns block) → DataFrame_wf block → row ∈ rows block →
  dict_get column (dict_of_pairs (zip (columns block) row.2)) = cell block row column.
Proof.
  intros Hnd Hwf Hrow. unfold cell. apply dict_get_zip; [done|].
  unfold DataFrame_wf in Hwf. rewrite Forall_forall in Hwf. by apply Hwf.
Qed.

(** What [convert_record] does to a record with a month, a day and an hour. *)
Lemma convert_record_spec (record : dict string value) (m d h : Z) :
  dict_get TimeResolution.MONTH record = Some (VInt m) → (0 ≤ m ≤ 99)%Z →
  dict_get TimeResolution.DAY record = Some (VInt d) → (0 ≤ d ≤ 99)%Z →
  dict_get TimeResolution.HOUR record = Some (VInt h) → (0 ≤ h ≤ 99)%Z →
  convert_record record
  = Ok (dict_set TimeResolution.HOUR2D (VStr (two_digits h))
          (dict_set TimeResolution.DAY2D (VStr (two_digits d))
             (dict_set TimeResolution.MONTH2D (VStr (two_digits m)) record))).
Proof.
  intros Hm Hmr Hd Hdr Hh Hhr. unfold convert_record, dict_getitem.
  rewrite Hm. cbn -[format_02d dict_get dict_set].
  rewrite (format_02d_two_digits m) by done. cbn -[format_02d dict_get dict_set].
  rewrite dict_get_set_ne by done. rewrite Hd. cbn -[format_02d dict_get dict_set].
  rewrite (format_02d_two_digits d) by done. cbn -[format_02d dict_get dict_set].
  rewrite !dict_get_set_ne by done. rewrite Hh. cbn -[format_02d dict_get dict_set].
  rewrite (format_02d_two_digits h) by done. done.
Qed.

(** C10. For a block whose rows have a month, a day and an hour,
    [convert_block_to_dict] returns one record per row, in the order of the
    rows; a record has the fields of its row, unchanged, and three more: the
    month, the day and the hour as strings of two digits, zero-padded. *)
Theorem convert_block_to_dict_spec (block : Block) :
  DataFrame_wf block →
  NoDup (columns block) →
  (∀ rendering, rendering ∈ [TimeResolution.MONTH2D; TimeResolution.DAY2D;
                            TimeResolution.HOUR2D] → rendering ∉ columns block) →
  (∀ row, row ∈ rows block → ∃ m d h, calendar_row block row m d h) →
  ∃ records,
    convert_block_to_dict block = Ok records
    ∧ Forall2 (λ row record,
         (∀ column, column ∈ columns block →
            dict_get column record = cell block row column)
         ∧ dict_keys record
           = columns block ++ [TimeResolution.MONTH2D; TimeResolution.DAY2D;
                               TimeResolution.HOUR2D]
         ∧ ∃ m d h, calendar_row block row m d h
             ∧ dict_get TimeResolution.MONTH2D record = Some (VStr (two_digits m))
             ∧ dict_get TimeResolution.DAY2D record = Some (VStr (two_digits d))
             ∧ dict_get TimeResolution.HOUR2D record = Some (VStr (two_digits h)))
        (rows block) records.
Proof.
  intros Hwf Hnd Hfresh Hcalendar.
  unfold convert_block_to_dict, to_dict_records.
  assert (∀ row, row ∈ rows block → row ∈ rows block) as Hsub by done.
  revert Hsub Hcalendar. generalize (rows block) at 1 3 4 5 as rs.
  induction rs as [|row rs IH]; intros Hsub Hcalendar.
  - exists []. split; [done | constructor].
  - destruct IH as (records & Hrecords & Hall).
    { intros r Hr. apply Hsub, elem_of_cons. by right. }
    { intros r Hr. apply Hcalendar, elem_of_cons. by right. }
    assert (row ∈ rows block) as Hrow by (apply Hsub, elem_of_cons; by left).
    destruct (Hcalendar row) as (m & d & h & Hcal); [apply elem_of_cons; by left|].
    pose proof Hcal as (Hm & Hmr & Hd & Hdr & Hh & Hhr).
    set (record := dict_of_pairs (zip (columns block) row.2)).
    assert (∀ column, dict_get column record = cell block row column) as Hget.
    { intros column. by apply to_dict_records_get. }
    assert (dict_keys record = columns block) as Hkeys.
    { subst record. rewrite dict_of_pairs_wf.
      - unfold dict_keys. apply fst_zip.
        unfold DataFrame_wf in Hwf. rewrite Forall_forall in Hwf.
        rewrite (Hwf row Hrow). done.
      - unfold dict_wf, dict_keys. rewrite fst_zip; [done|].
        unfold DataFrame_wf in Hwf. rewrite Forall_forall in Hwf.
        rewrite (Hwf row Hrow). done. }
    eexists. split.
    + rewrite fmap_cons. cbn [traverse]. fold record.
      rewrite (convert_record_spec record m d h) by (rewrite ?Hget; done).
      simpl. rewrite Hrecords. simpl. reflexivity.
    + constructor; [|done]. split_and!.
      * intros column Hcolumn.
        rewrite !dict_get_set_ne; [apply Hget | | |].
        all: intros <-; eapply Hfresh; [|exact Hcolumn]; listed.
      * rewrite dict_keys_set, dict_keys_set, dict_keys_set, Hkeys.
        rewrite (decide_False (P := TimeResolution.MONTH2D ∈ columns block))
          by (apply Hfresh; listed).
        rewrite (decide_False (P := TimeResolution.DAY2D ∈ _)).
        2:{ rewrite not_elem_of_app. split; [apply Hfresh; listed|].
            rewrite list_elem_of_singleton. done. }
        rewrite (decide_False (P := TimeResolution.HOUR2D ∈ _)).
        2:{ rewrite !not_elem_of_app. split_and!; [apply Hfresh; listed|..].
            all: rewrite list_elem_of_singleton; done. }
        by rewrite <- !app_assoc.
      * exists m, d, h. split_and!; [done|..].
        -- rewrite !dict_get_set_ne by done. apply dict_get_set_eq.
        -- rewrite dict_get_set_ne by done. apply dict_get_set_eq.
        -- apply dict_get_set_eq.
Qed.

End converter.

(** ** The temporal block partitioner: the partition *)

Section list_facts.
Context {A : Type} `{EqDecision A}.

Lemma elem_of_positions_of (x : A) (l : list A) i :
  i ∈ positions_of x l ↔ l !! i = Some x.
Proof.
  unfold positions_of. rewrite list_elem_of_filter, elem_of_seq. split.
  - by intros [? _].
  - intros Hi. split; [done|]. apply lookup_lt_Some in Hi. lia.
Qed.

Lemma NoDup_positions_of (x : A) (l : list A) : NoDup (positions_of x l).
Proof. unfold positions_of. apply NoDup_filter, NoDup_seq. Qed.

Lemma NoDup_singleton_elems {B} (l : list B) (y : B) :
  NoDup l → (∀ z, z ∈ l ↔ z = y) → l = [y].
Proof.
  intros Hnd Hiff. destruct l as [|a l].
  - exfalso. eapply not_elem_of_nil. by apply Hiff.
  - assert (a = y) as -> by (apply Hiff, list_elem_of_here).
    destruct l as [|b l]; [done|]. exfalso.
    apply NoDup_cons in Hnd as [Hnotin _]. apply Hnotin.
    assert (b = y) as -> by (apply Hiff, list_elem_of_further, list_elem_of_here).
    apply list_elem_of_here.
Qed.

Lemma positions_of_NoDup (x : A) (l : list A) j :
  NoDup l → l !! j = Some x → positions_of x l = [j].
Proof.
  intros Hnd Hj. apply NoDup_singleton_elems; [apply NoDup_positions_of|].
  intros i. rewrite elem_of_positions_of. split.
  - intros Hi. by eapply NoDup_lookup.
  - by intros ->.
Qed.

Lemma list_index_elem_of (x : A) (l : list A) :
  x ∈ l → ∃ j, list_index x l = Some j.
Proof.
  intros Hin. destruct (list_index x l) as [j|] eqn:Hidx; [by exists j|].
  apply list_index_None in Hidx. done.
Qed.

Lemma concat_singletons {B} (f : A → B) (l : list A) :
  concat ((λ x, [f x]) <$> l) = f <$> l.
Proof. induction l as [|x l IH]; [done|]. rewrite !fmap_cons. simpl. by rewrite IH. Qed.


End list_facts.

Lemma traverse_fmap {A B} (f : A → result B) (g : A → B) (l : list A) :
  (∀ x, x ∈ l → f x = Ok (g x)) → traverse f l = Ok (g <$> l).
Proof.
  induction l as [|x l IH]; intros Hf; simpl; [done|].
  rewrite Hf by apply list_elem_of_here. simpl.
  rewrite IH; [done|]. intros y Hy. apply Hf. by apply list_elem_of_further.
Qed.

(** A loop that stores one value per key, for keys that are distinct and
    new. *)
Lemma for_each_dict_set {K V} `{EqDecision K} (body : dict K V → K → result (dict K V))
    (g : K → V) (acc : dict K V) (ks : list K) :
  (∀ d k, k ∈ ks → body d k = Ok (dict_set k (g k) d)) →
  NoDup ks → (∀ k, k ∈ ks → k ∉ dict_keys acc) →
  for_each body acc ks = Ok (acc ++ ((λ k, (k, g k)) <$> ks)).
Proof.
  revert acc. induction ks as [|k ks IH]; intros acc Hbody Hnd Hfresh; simpl.
  - by rewrite app_nil_r.
  - apply NoDup_cons in Hnd as [Hnotin Hnd].
    rewrite Hbody by apply list_elem_of_here. simpl.
    rewrite dict_set_fresh by (apply Hfresh, list_elem_of_here).
    rewrite IH; [by rewrite <- app_assoc | | done | ].
    + intros d k' Hk'. apply Hbody. by apply list_elem_of_further.
    + intros k' Hk'. unfold dict_keys. rewrite fmap_app, not_elem_of_app. split.
      * apply Hfresh. by apply list_elem_of_further.
      * simpl. rewrite list_elem_of_singleton. by intros ->.
Qed.

Section partition.
Context `{Float64}.
Variables (df : DataFrame) (m : DBMetadataMapping).
Hypothesis Hwf : DataFrame_wf df.
Hypothesis Hfits : mapping_fits df m.

Lemma mapped_elem key column : (key, column) ∈ m → mapped m key = column.
Proof.
  intros Hin. destruct Hfits as (_ & Hm & _). unfold mapped.
  by rewrite (dict_get_elem_wf _ _ _ Hm Hin).
Qed.

Lemma mapped_key key : key ∈ dict_keys m → (key, mapped m key) ∈ m.
Proof.
  intros Hin. apply dict_get_is_Some in Hin as [column Hget]. unfold mapped.
  rewrite Hget. simpl. by apply dict_get_Some_elem.
Qed.

Lemma mapped_in_columns key : key ∈ dict_keys m → mapped m key ∈ columns df.
Proof.
  intros Hin. destruct Hfits as (_ & _ & _ & Hcols & _). apply Hcols.
  unfold dict_values. apply list_elem_of_fmap. exists (key, mapped m key).
  split; [done|]. by apply mapped_key.
Qed.

Lemma column_index_lookup column :
  column ∈ columns df → columns df !! column_index (columns df) column = Some column.
Proof.
  intros Hin. apply list_index_elem_of in Hin as [j Hj]. unfold column_index.
  rewrite Hj. simpl. by apply list_index_Some.
Qed.

Lemma column_position_Ok column :
  column ∈ columns df →
  column_position column (columns df) = Ok (column_index (columns df) column).
Proof.
  intros Hin. destruct Hfits as (Hnd & _). unfold column_position.
  by rewrite (positions_of_NoDup _ _ _ Hnd (column_index_lookup _ Hin)).
Qed.

(** The cell of a row in a column of the table, by position. *)
Lemma cell_column_index row column :
  row ∈ rows df → column ∈ columns df →
  cell df row column = Some (row.2 !!! column_index (columns df) column).
Proof.
  intros Hrow Hin. unfold cell, column_index.
  destruct (list_index_elem_of _ _ Hin) as [j Hj]. rewrite Hj. simpl.
  apply list_lookup_lookup_total_lt.
  unfold DataFrame_wf in Hwf. rewrite Forall_forall in Hwf. rewrite (Hwf _ Hrow).
  apply list_index_Some in Hj. by eapply lookup_lt_Some.
Qed.

(** Step 1: the names of the columns to group by. *)
Lemma grouping_column_names keys :
  (∀ key, key ∈ keys → key ∈ dict_keys m) →
  traverse (λ key, dict_getitem key m) keys = Ok (mapped m <$> keys).
Proof.
  intros Hcover. apply traverse_fmap. intros key Hkey.
  apply Hcover, dict_get_is_Some in Hkey as [column Hget].
  unfold dict_getitem, mapped. by rewrite Hget.
Qed.

(** Step 2: the grouping. *)
Lemma groupby_indices_Ok names :
  names ≠ [] → (∀ name, name ∈ names → name ∈ columns df) →
  groupby_indices df names
  = Ok (let row_keys :=
          (λ r, cells_at (column_index (columns df) <$> names) r.2) <$> rows df in
        (λ k, (k, positions_of k row_keys))
          <$> merge_sort tuple_le (remove_dups row_keys)).
Proof.
  intros Hne Hnames. unfold groupby_indices. rewrite decide_False by done.
  rewrite (traverse_fmap _ (column_index (columns df))); [done|].
  intros name Hname. by apply column_position_Ok, Hnames.
Qed.

(** Step 3: the renaming. *)
Lemma reverse_mapping_elem key column :
  (key, column) ∈ m →
  dict_get column (dict_of_pairs ((λ kv, (kv.2, kv.1)) <$> m)) = Some key.
Proof.
  intros Hin. destruct Hfits as (_ & _ & Hvalues & _).
  rewrite dict_of_pairs_wf.
  - apply dict_get_elem_wf.
    + unfold dict_wf, dict_keys. rewrite <- list_fmap_compose. exact Hvalues.
    + apply list_elem_of_fmap. by exists (key, column).
  - unfold dict_wf, dict_keys. rewrite <- list_fmap_compose. exact Hvalues.
Qed.

Lemma rename_mapped key column : (key, column) ∈ m → canonical_name m column = key.
Proof. intros Hin. unfold canonical_name. by rewrite (reverse_mapping_elem _ _ Hin). Qed.

Lemma rename_inj column1 column2 :
  column1 ∈ columns df → column2 ∈ columns df →
  canonical_name m column1 = canonical_name m column2 → column1 = column2.
Proof.
  destruct Hfits as (_ & Hm & _ & _ & Hcanon).
  intros Hin1 Hin2. unfold canonical_name.
  destruct (dict_get column1 _) as [key1|] eqn:Hget1;
    destruct (dict_get column2 _) as [key2|] eqn:Hget2; simpl.
  - intros <-. apply reverse_mapping_Some in Hget1, Hget2.
    apply (dict_get_elem_wf _ _ _ Hm) in Hget1, Hget2. congruence.
  - intros ->. apply reverse_mapping_Some in Hget1. apply reverse_mapping_None in Hget2.
    exfalso. apply Hget2, Hcanon; [done|].
    unfold dict_keys. apply list_elem_of_fmap. by exists (column2, column1).
  - intros <-. apply reverse_mapping_Some in Hget2. apply reverse_mapping_None in Hget1.
    exfalso. apply Hget1, Hcanon; [done|].
    unfold dict_keys. apply list_elem_of_fmap. by exists (column1, column2).
  - done.
Qed.

Lemma renamed_columns_NoDup : NoDup (canonical_name m <$> columns df).
Proof.
  destruct Hfits as (Hnd & _). clear Hwf.
  assert (∀ c, c ∈ columns df → c ∈ columns df) as Hsub by done.
  revert Hsub Hnd. generalize (columns df) at 1 3 4 as cols.
  induction cols as [|c cols IH]; intros Hsub Hnd; [apply NoDup_nil_2|].
  rewrite fmap_cons. apply NoDup_cons in Hnd as [Hnotin Hnd].
  apply NoDup_cons. split.
  - intros Hin. apply list_elem_of_fmap in Hin as (c' & Heq & Hc').
    apply rename_inj in Heq; [by subst | apply Hsub, list_elem_of_here |].
    by apply Hsub, list_elem_of_further.
  - apply IH; [|done]. intros c' Hc'. by apply Hsub, list_elem_of_further.
Qed.


Lemma renamed_columns_lookup key :
  key ∈ dict_keys m →
  (canonical_name m <$> columns df) !! column_index (columns df) (mapped m key) = Some key.
Proof.
  intros Hkey. rewrite list_lookup_fmap.
  rewrite column_index_lookup by by apply mapped_in_columns.
  simpl. f_equal. apply rename_mapped. by apply mapped_key.
Qed.

(** Step 4: the columns of interest. *)
Lemma getitem_columns_canonical :
  getitem_columns (dict_keys m)
    (set_index_name INDEX_NAME
       (rename_columns (dict_of_pairs ((λ kv, (kv.2, kv.1)) <$> m)) df))
  = Ok (canonical_table df m).
Proof.
  unfold getitem_columns, set_index_name, rename_columns. cbn [columns rows index_name].
  fold (canonical_name m).
  rewrite (traverse_fmap _ (λ key, [column_index (columns df) (mapped m key)])).
  2:{ intros key Hkey.
      by rewrite (positions_of_NoDup _ _ _ renamed_columns_NoDup
                    (renamed_columns_lookup _ Hkey)). }
  cbn [mbind result_bind]. rewrite concat_singletons. unfold canonical_table. f_equal. f_equal.
  - rewrite <- list_fmap_compose.
    rewrite <- (list_fmap_id (dict_keys m)) at 2.
    apply Forall_fmap_ext, Forall_forall. intros key Hkey. simpl.
    apply list_lookup_total_correct. by apply renamed_columns_lookup.
  - apply Forall_fmap_ext, Forall_forall. intros row Hrow. unfold canonical_row.
    f_equal. unfold cells_at, dict_keys. rewrite <- !list_fmap_compose.
    apply Forall_fmap_ext, Forall_forall. intros [key column] Hkc. simpl.
    rewrite (mapped_elem _ _ Hkc).
    rewrite (cell_column_index row column); [done | done |].
    destruct Hfits as (_ & _ & _ & Hcols & _). apply Hcols.
    unfold dict_values. apply list_elem_of_fmap. by exists (key, column).
Qed.

Hypothesis Hpos : positional_index df.

Lemma canonical_table_labels : (rows (canonical_table df m)).*1 = RangeIndex (length (rows df)).
Proof.
  unfold canonical_table. cbn [rows]. rewrite <- list_fmap_compose.
  rewrite <- Hpos. unfold index. by apply Forall_fmap_ext, Forall_forall.
Qed.

Lemma canonical_table_label p row :
  rows (canonical_table df m) !! p = Some row → row.1 = Z.of_nat p.
Proof.
  intros Hrow.
  assert ((rows (canonical_table df m)).*1 !! p = Some row.1) as Hlabel.
  { by rewrite list_lookup_fmap, Hrow. }
  rewrite canonical_table_labels in Hlabel. unfold RangeIndex in Hlabel.
  rewrite list_lookup_fmap in Hlabel.
  destruct (seq 0 (length (rows df)) !! p) as [q|] eqn:Hq; [|done].
  apply lookup_seq in Hq as [-> _]. simpl in Hlabel. congruence.
Qed.

(** The rows that bear the label of a position: the row at that position. *)
Lemma filter_label p row :
  rows (canonical_table df m) !! p = Some row →
  filter (λ r, r.1 = Z.of_nat p) (rows (canonical_table df m)) = [row].
Proof.
  intros Hrow. apply NoDup_singleton_elems.
  - apply NoDup_filter. eapply NoDup_fmap_1 with (f := fst).
    rewrite canonical_table_labels. unfold RangeIndex.
    apply NoDup_fmap; [apply _ | apply NoDup_seq].
  - intros r. rewrite list_elem_of_filter. split.
    + intros [Hlabel Hr]. apply list_elem_of_lookup in Hr as [q Hq].
      apply canonical_table_label in Hq as Hq'.
      assert (q = p) as -> by lia. congruence.
    + intros ->. split.
      * by apply canonical_table_label.
      * by eapply list_elem_of_lookup_2.
Qed.

(** Step 5: the rows of a group, selected by label. *)
Lemma loc_positions (positions : list nat) :
  (∀ p, p ∈ positions → (p < length (rows df))%nat) →
  loc (Z.of_nat <$> positions) (canonical_table df m)
  = Ok {| columns := dict_keys m;
          index_name := Some INDEX_NAME;
          rows := (λ p, rows (canonical_table df m) !!! p) <$> positions |}.
Proof.
  intros Hlt. unfold loc.
  rewrite (traverse_fmap _ (λ l, [rows (canonical_table df m) !!! Z.to_nat l])).
  - cbn [mbind result_bind]. rewrite concat_singletons, <- list_fmap_compose.
    f_equal. f_equal. apply Forall_fmap_ext, Forall_forall. intros p _. simpl.
    by rewrite Nat2Z.id.
  - intros l Hl. apply list_elem_of_fmap in Hl as (p & -> & Hp).
    rewrite Nat2Z.id.
    assert (rows (canonical_table df m) !! p
            = Some (rows (canonical_table df m) !!! p)) as Hrow.
    { apply list_lookup_lookup_total_lt. unfold canonical_table. cbn [rows].
      rewrite length_fmap. by apply Hlt. }
    by rewrite (filter_label _ _ Hrow).
Qed.


Lemma elem_of_table_periods resolution period :
  period ∈ table_periods df m resolution
  ↔ period ∈ row_period df m resolution <$> rows df.
Proof.
  unfold table_periods. by rewrite merge_sort_Permutation, elem_of_remove_dups.
Qed.

Lemma grouping_keys_covered resolution key :
  covers_time_fields m → key ∈ grouping_keys resolution → key ∈ dict_keys m.
Proof.
  intros Hcover Hkey. apply Hcover. unfold grouping_keys in Hkey.
  destruct (list_index resolution TimeResolution.KEYS); [|by apply elem_of_nil in Hkey].
  eapply elem_of_sublist; [done | apply sublist_take].
Qed.

(** Step 6: the partitioner in one equation. *)
Lemma build_blocks_structure_eq resolution inplace :
  covers_time_fields m → resolution ∈ TimeResolution.KEYS →
  (__build_blocks_structure df m resolution inplace).2
  = Ok ((λ period, (period, period_block df m resolution period))
          <$> table_periods df m resolution).
Proof.
  intros Hcover Hres. unfold __build_blocks_structure.
  pose proof (grouping_keys_covered resolution) as Hkeys.
  unfold table_periods, period_block, row_period, grouping_keys in *.
  destruct (list_index_elem_of _ _ Hres) as [degree Hdegree]. rewrite Hdegree in *.
  rewrite Nat.add_1_r.
  rewrite grouping_column_names by (intros key Hkey; by apply Hkeys).
  cbn [mbind result_bind].
  rewrite groupby_indices_Ok.
  2:{ apply list_index_Some in Hdegree.
      destruct TimeResolution.KEYS; [done|]. done. }
  2:{ intros name Hname. apply list_elem_of_fmap in Hname as (key & -> & Hkey).
      apply mapped_in_columns. by apply Hkeys. }
  cbn [snd]. rewrite getitem_columns_canonical. cbn [mbind result_bind].
  assert (((λ r : Z * list value,
              cells_at (column_index (columns df) <$> (mapped m <$> take (S degree) TimeResolution.KEYS)) r.2)
             <$> rows df)
          = ((λ row : Z * list value,
                (λ key, row.2 !!! column_index (columns df) (mapped m key))
                  <$> take (S degree) TimeResolution.KEYS) <$> rows df)) as ->.
  { apply Forall_fmap_ext, Forall_forall. intros row _. unfold cells_at.
    by rewrite <- !list_fmap_compose. }
  set (row_keys := (λ row : Z * list value, _) <$> rows df).
  set (periods := merge_sort tuple_le (remove_dups row_keys)).
  assert (NoDup periods) as Hnd.
  { subst periods. rewrite merge_sort_Permutation. apply NoDup_remove_dups. }
  unfold dict_keys at 1. rewrite <- list_fmap_compose.
  rewrite (proj1 (Forall_fmap_ext _ id periods)) by by apply Forall_forall.
  rewrite list_fmap_id.
  rewrite (for_each_dict_set _
             (λ period, {| columns := dict_keys m; index_name := Some INDEX_NAME;
                           rows := (λ p, rows (canonical_table df m) !!! p)
                                     <$> positions_of period row_keys |})).
  - done.
  - intros d period Hperiod. unfold dict_getitem.
    rewrite (dict_get_elem_wf _ period (positions_of period row_keys)).
    + cbn [mbind result_bind]. rewrite loc_positions; [done|].
      intros p Hp. apply elem_of_positions_of, lookup_lt_Some in Hp.
      subst row_keys. by rewrite length_fmap in Hp.
    + unfold dict_wf. by rewrite dict_keys_tabulate.
    + apply list_elem_of_fmap. by exists period.
  - done.
  - intros period _. apply not_elem_of_nil.
Qed.





End partition.

Section partition_theorem.
Context `{Float64}.


End partition_theorem.

(** ** The model on the examples *)

Example grouping_keys_year : grouping_keys "year" = ["year"].
Proof. reflexivity. Qed.

Example grouping_keys_month : grouping_keys "month" = ["year"; "month"].
Proof. reflexivity. Qed.

Example grouping_keys_day : grouping_keys "day" = ["year"; "month"; "day"].
Proof. reflexivity. Qed.

Example grouping_keys_hour : grouping_keys "hour" = ["year"; "month"; "day"; "hour"].
Proof. reflexivity. Qed.

Example example_structure_october :
  dict_get [VInt 2000; VInt 10] example_structure = Some example_block.
Proof. reflexivity. Qed.

Example example_structure_periods :
  dict_keys example_structure = [[VInt 2000; VInt 9]; [VInt 2000; VInt 10]].
Proof. reflexivity. Qed.

Example example_merged_september :
  dict_keys <$> dict_get [VInt 2000; VInt 9]
                  (@__merge_block_structures Z_float example_structures)
  = Some ["cyclone"].
Proof. reflexivity. Qed.


(** The converter on the block of October 2000. *)
Lemma convert_block_to_dict_spec_witness :
  is_Ok (@convert_block_to_dict Z_float example_block).
Proof.
  destruct (@convert_block_to_dict_spec Z_float example_block)
    as (records & Hrecords & _).
  - unfold DataFrame_wf. compute_done.
  - compute_done.
  - apply Forall_forall. compute_done.
  - intros row Hrow.
    repeat (apply elem_of_cons in Hrow as [->|Hrow]);
      [| |by apply elem_of_nil in Hrow];
      eexists _, _, _; unfold calendar_row;
      (split_and!; [reflexivity | lia | lia | reflexivity | lia | lia
                    | reflexivity | lia | lia]).
  - by exists records.
Defined.

(** ** The region extractor and the computed variables *)

Section time_series_facts.
Context `{Float64}.
Variable round_nearest : float → float → Z → float.
Variable str_format : string → time_dict_t → result string.

(** C5. For a single-level or a multi-level variable, the region is selected
    between lat_min = lat - half_lat + lat_resolution and lat_max = lat +
    half_lat, and between lon_min = lon - half_lon and lon_max = lon +
    half_lon - lon_resolution, for lat and lon rounded if rounding is asked
    for; the two latitude bounds are exchanged exactly when the latitude
    axis of the grid is stored in descending order. *)
Theorem extract_square_region_bounds (self : XarrayTimeSeries) (variable : Variable_)
    (a : variable_attributes) (time_dict : time_dict_t)
    (lat lon half_lat_frame half_lon_frame : float) (has_to_round : bool)
    (formatted_date : string) (lat_series : list float) :
  leaf_attributes variable = Some a →
  str_format (date_template a) time_dict = Ok formatted_date →
  coordinate (dataset self) (NETCDF_ATTR_NAME (LAT (coordinate_metadata a)))
    = Some lat_series →
  lat_series ≠ [] →
  let lat_resolution := RESOLUTION (LAT (coordinate_metadata a)) in
  let lon_resolution := RESOLUTION (LON (coordinate_metadata a)) in
  let rounded_lat :=
    if has_to_round
    then round_nearest lat lat_resolution (NB_DECIMAL (LAT (coordinate_metadata a)))
    else lat in
  let rounded_lon :=
    if has_to_round
    then round_nearest lon lon_resolution (NB_DECIMAL (LON (coordinate_metadata a)))
    else lon in
  let lat_min := fadd (fsub rounded_lat half_lat_frame) lat_resolution in
  let lat_max := fadd rounded_lat half_lat_frame in
  let lon_min := fsub rounded_lon half_lon_frame in
  let lon_max := fsub (fadd rounded_lon half_lon_frame) lon_resolution in
  _extract_square_region round_nearest str_format self variable time_dict lat lon
    half_lat_frame half_lon_frame has_to_round
  = select (dataset self)
      {| sel_name := netcdf_attribute_name a;
         sel_time := formatted_date;
         sel_level := leaf_level variable;
         sel_latitude := if descending lat_series then (lat_max, lat_min)
                         else (lat_min, lat_max);
         sel_longitude := (lon_min, lon_max) |}.
Proof.
  intros Hleaf Hdate Hseries Hne. unfold descending.
  destruct (head lat_series) as [first|] eqn:Hfirst.
  2:{ destruct lat_series; done. }
  destruct (last lat_series) as [final|] eqn:Hfinal.
  2:{ apply last_None in Hfinal. done. }
  destruct variable as [a'|a' level|]; simpl in Hleaf; [| |done];
    injection Hleaf as ->; simpl; rewrite Hdate, Hseries; simpl;
    rewrite Hfirst, Hfinal; simpl; by destruct (fltb final first).
Qed.

(** For a variable that is extracted directly the method is
    [_extract_square_region], with rounding. *)
Lemma extract_square_region_leaf self variable time_dict lat lon half_lat_frame
    half_lon_frame :
  is_leaf variable →
  extract_square_region round_nearest str_format self variable time_dict lat lon
    half_lat_frame half_lon_frame
  = Some <$> _extract_square_region round_nearest str_format self variable time_dict
               lat lon half_lat_frame half_lon_frame true.
Proof. by destruct variable. Qed.

Lemma accept_leaf extract_region variable visitor region :
  is_leaf variable → extract_region variable = Ok region →
  accept extract_region variable visitor
  = Ok {| data_array_mapping :=
            dict_set (variable_str_id variable) region (data_array_mapping visitor);
          visitor_result := visitor_result visitor |}.
Proof.
  intros Hleaf Hregion.
  destruct variable; [| |done]; simpl;
    unfold visit_MultiLevelVariable, visit_SingleLevelVariable; by rewrite Hregion.
Qed.

(** The evaluation of the two-operand sum over a mapping that holds the two
    operands. *)
Lemma rpn_compute_sum expression (mapping : dict string Region) a b region_a region_b :
  tokens expression = [a; b; "+"] →
  operator a = None → operator b = None →
  dict_get a mapping = Some region_a → dict_get b mapping = Some region_b →
  same_shape region_a region_b = true →
  XarrayRpnCalculator_compute expression mapping
  = Ok (elementwise fadd region_a region_b).
Proof.
  intros Htokens Ha Hb Hget_a Hget_b Hshape.
  unfold XarrayRpnCalculator_compute. rewrite Htokens. simpl.
  unfold rpn_step at 3. rewrite Ha, Hget_a. simpl.
  unfold rpn_step at 2. rewrite Hb, Hget_b. simpl.
  unfold rpn_step. simpl. by rewrite Hshape.
Qed.

(** C8. A computed variable whose expression is "A B +", over two variables
    A and B that are extracted directly, evaluates to the element-wise sum
    of the region extracted for A and the region extracted for B with the
    same time, location and frame. *)
Theorem computed_variable_sum (self : XarrayTimeSeries) (A B : Variable_)
    (str_id expression : string) (time_dict : time_dict_t)
    (lat lon half_lat_frame half_lon_frame : float) (region_a region_b : Region) :
  is_leaf A → is_leaf B →
  tokens expression = [variable_str_id A; variable_str_id B; "+"] →
  operator (variable_str_id A) = None → operator (variable_str_id B) = None →
  variable_str_id A ≠ variable_str_id B ∨ A = B →
  extract_square_region round_nearest str_format self A time_dict lat lon
    half_lat_frame half_lon_frame = Ok (Some region_a) →
  extract_square_region round_nearest str_format self B time_dict lat lon
    half_lat_frame half_lon_frame = Ok (Some region_b) →
  same_shape region_a region_b = true →
  extract_square_region round_nearest str_format self
    (ComputedVariable str_id expression [A; B]) time_dict lat lon
    half_lat_frame half_lon_frame
  = Ok (Some (elementwise fadd region_a region_b)).
Proof.
  intros HA HB Htokens Hop_a Hop_b Hids Hregion_a Hregion_b Hshape.
  rewrite extract_square_region_leaf in Hregion_a, Hregion_b by done.
  destruct (_extract_square_region _ _ self A _ _ _ _ _ _) as [ra|] eqn:Ha; [|done].
  destruct (_extract_square_region _ _ self B _ _ _ _ _ _) as [rb|] eqn:Hb; [|done].
  simpl in Hregion_a, Hregion_b. injection Hregion_a as ->. injection Hregion_b as ->.
  unfold extract_square_region, extract_square_region_body. cbn [accept].
  rewrite (accept_leaf _ A _ region_a HA Ha). cbn [mbind result_bind].
  rewrite (accept_leaf _ B _ region_b HB Hb). cbn [mbind result_bind].
  unfold visit_ComputedVariable. cbn [data_array_mapping visitor_result].
  rewrite (rpn_compute_sum expression _ _ _ region_a region_b Htokens Hop_a Hop_b);
    [done | | apply dict_get_set_eq | done].
  destruct Hids as [Hne| ->].
  - rewrite dict_get_set_ne by done. apply dict_get_set_eq.
  - rewrite Ha in Hb. injection Hb as ->. apply dict_get_set_eq.
Qed.

End time_series_facts.

(** The frame of half-extent 4 around (40, 312) on the example grid, whose
    latitudes are descending: the latitude bounds are exchanged. *)
Lemma extract_square_region_bounds_witness :
  @_extract_square_region Z_float example_round_nearest example_str_format
    example_time_series example_msl [("year", 2000%Z)] 40%Z 312%Z 4%Z 4%Z true
  = select example_dataset example_selection.
Proof.
  assert ([50%Z; 40%Z; 30%Z] ≠ @nil Z) as Hne by done.
  exact (@extract_square_region_bounds Z_float example_round_nearest example_str_format
           example_time_series example_msl example_msl_attributes [("year", 2000%Z)]
           40%Z 312%Z 4%Z 4%Z true "2000-10-01T00" [50%Z; 40%Z; 30%Z]
           eq_refl eq_refl eq_refl Hne).
Defined.

(** The sum of the two example variables. *)
Lemma computed_variable_sum_witness :
  @extract_square_region Z_float example_round_nearest example_str_format
    example_time_series (ComputedVariable "sum" "msl ta200 +" [example_msl; example_ta200])
    [("year", 2000%Z)] 40%Z 312%Z 4%Z 4%Z
  = Ok (Some example_region_sum).
Proof.
  apply (@computed_variable_sum Z_float example_round_nearest example_str_format
           example_time_series example_msl example_ta200 "sum" "msl ta200 +"
           [("year", 2000%Z)] 40%Z 312%Z 4%Z 4%Z
           example_region_msl example_region_ta200);
    first [exact I | reflexivity | (left; intros [=])].
Defined.

(** ** The dispatcher *)

Section dispatcher_facts.
Context `{Float64} (fu : file_utils) {DataArray : Type}.
Implicit Types (w : World DataArray).

Lemma always_raises_bind_l {A B} (m : io DataArray A) (f : A → io DataArray B) :
  always_raises m → always_raises (m ≫= f).
Proof.
  intros Hm w. destruct (Hm w) as (e & w' & Hw).
  exists e, w'. unfold mbind, io_bind. by rewrite Hw.
Qed.

Lemma always_raises_bind_r {A B} (m : io DataArray A) (f : A → io DataArray B) :
  (∀ a, always_raises (f a)) → always_raises (m ≫= f).
Proof.
  intros Hf w. unfold mbind, io_bind. destruct (m w) as [[a|e] w'].
  - apply Hf.
  - by exists e, w'.
Qed.

Lemma always_raises_lift_bind {A B} (r : result A) (f : A → io DataArray B) :
  (∀ a, r = Ok a → always_raises (f a)) → always_raises (io_lift r ≫= f).
Proof.
  intros Hf w. unfold mbind, io_bind, io_lift. destruct r as [a|e].
  - by apply Hf.
  - by exists e, w.
Qed.

Lemma unpack2_Ok (item a b : pyobj DataArray) :
  unpack2 item = Ok (a, b) → ∃ s, b = PStr s.
Proof.
  destruct item as [s|array]; simpl; [|done].
  destruct (String.list_ascii_of_string s) as [|c1 [|c2 [|c3 cs]]]; try done.
  intros [= <- <-]. by eexists.
Qed.

(** The body of the loop of [__core_extraction] raises for every item: the
    loop runs over the keys of the dictionary, each key is unpacked into two
    strings, and a string has no [values]. *)
Lemma core_extraction_label_raises period blocks file_prefix_path result
    (item : pyobj DataArray) :
  always_raises
    (core_extraction_label fu period blocks file_prefix_path result item).
Proof.
  unfold core_extraction_label.
  apply always_raises_lift_bind. intros [label_id data_block] Hunpack.
  apply unpack2_Ok in Hunpack as [s ->].
  do 5 (apply always_raises_bind_r; intros ?).
  apply always_raises_bind_l. intros w. by exists AttributeError, w.
Qed.

Lemma io_for_each_raising {A S} (body : S → A → io DataArray S) s l w s' w' :
  (∀ s x, always_raises (body s x)) →
  io_for_each body s l w = (Ok s', w') → l = [] ∧ s' = s ∧ w' = w.
Proof.
  intros Hbody. destruct l as [|x l]; simpl.
  - by intros [= <- <-].
  - unfold mbind, io_bind. destruct (Hbody s x w) as (e & w'' & ->). done.
Qed.

(** When [__core_extraction] returns, it returns no paths at all. *)
Lemma core_extraction_no_paths item w period paths w' :
  __core_extraction fu item w = (Ok (period, paths), w') → paths = [].
Proof.
  destruct item as [period' blocks]. unfold __core_extraction.
  unfold mbind, io_bind, read_global, emit, io_lift, mret, io_ret.
  destruct (g_processing_function w) as [f|]; [|done].
  destruct (f period' blocks) as [[file_prefix_path extracted]|]; [|done].
  destruct (io_for_each _ _ _ _) as [[result|e] w''] eqn:Hloop; [|done].
  apply io_for_each_raising in Hloop as (_ & -> & _).
  - by intros [= _ <- _].
  - intros. apply core_extraction_label_raises.
Qed.

Lemma dict_of_one_pair_no_paths (period : Period) :
  dict_of_one_pair (period, []) = Raise ValueError.
Proof.
  unfold dict_of_one_pair. simpl. by destruct period as [|? [|? [|? ?]]].
Qed.

Lemma sequential_loop_no_paths items acc w tmp_result w' :
  (∀ tmp, acc = Some tmp → tmp.2 = []) →
  io_for_each (λ _ item, tmp_result ← __core_extraction fu item; mret (Some tmp_result))
    acc items w = (Ok tmp_result, w') →
  ∀ tmp, tmp_result = Some tmp → tmp.2 = [].
Proof.
  revert acc w. induction items as [|item items IH]; intros acc w Hacc; simpl.
  - by intros [= <- <-].
  - unfold mbind at 1, io_bind at 1. unfold mbind at 1, io_bind at 1.
    destruct (__core_extraction fu item w) as [[[period paths]|e] w1] eqn:Hitem; [|done].
    apply core_extraction_no_paths in Hitem as ->.
    unfold mret, io_ret. apply IH. by intros tmp [= <-].
Qed.

Lemma pool_map_no_paths items w tmp_result w' :
  pool_map (__core_extraction fu) items w = (Ok tmp_result, w') →
  Forall (λ tmp, tmp.2 = []) tmp_result.
Proof.
  revert w tmp_result w'. induction items as [|item items IH]; intros w tmp_result w'; simpl.
  - unfold mret, io_ret. by intros [= <- <-].
  - destruct (__core_extraction fu item w) as [[[period paths]|e] w1] eqn:Hitem.
    + apply core_extraction_no_paths in Hitem as ->.
      destruct (pool_map _ items w1) as [[rest|e] w2] eqn:Hrest; [|done].
      intros [= <- <-]. constructor; [done|]. by eapply IH.
    + done.
Qed.

Lemma elem_of_dict_set {K V} `{EqDecision K} (d : dict K V) k v k' v' :
  (k', v') ∈ dict_set k v d → (k', v') = (k, v) ∨ (k', v') ∈ d.
Proof.
  induction d as [|[k0 v0] d IH]; simpl.
  - rewrite list_elem_of_singleton. by left.
  - destruct (decide (k = k0)) as [->|Hne]; rewrite !elem_of_cons.
    + intros [?|?]; [by left | right; by right].
    + intros [?|Hin]; [right; by left|].
      apply IH in Hin as [?|?]; [by left | right; by right].
Qed.

Lemma elem_of_dict_of_pairs {K V} `{EqDecision K} (l : list (K * V)) k v :
  (k, v) ∈ dict_of_pairs l → (k, v) ∈ l.
Proof.
  unfold dict_of_pairs.
  assert (∀ acc : dict K V,
            (k, v) ∈ foldl (λ d kv, dict_set kv.1 kv.2 d) acc l →
            (k, v) ∈ acc ∨ (k, v) ∈ l) as Hgen.
  { induction l as [|[k0 v0] l IH]; intros acc; simpl; [by left|].
    intros Hin. apply IH in Hin as [Hin|Hin].
    - apply elem_of_dict_set in Hin as [->|Hin]; [right; apply list_elem_of_here | by left].
    - right. by apply list_elem_of_further. }
  intros Hin. apply Hgen in Hin as [Hin|Hin]; [by apply elem_of_nil in Hin | done].
Qed.

(** The sequential dispatch never returns: with no period the variable that
    holds the result is unbound, and otherwise [dict] is given one pair whose
    second component, the paths of the last period, is empty. *)
Lemma extract_sequential_raises f tables mappings resolution inplace options w :
  ∃ e, returned (extract fu f tables mappings resolution 0 inplace options w) = Raise e.
Proof.
  unfold extract.
  destruct (build_structures tables mappings resolution inplace) as [tables' [structures|e]].
  2:{ by exists e. }
  unfold mbind at 1, io_bind at 1, io_lift at 1.
  unfold mbind at 1, io_bind at 1, set_globals at 1.
  rewrite (decide_False (P := (0 ≠ 0)%Z)) by (intros Hne; by apply Hne).
  unfold mbind at 1, io_bind at 1.
  destruct (io_for_each _ None _ _) as [[tmp_result|e] w1] eqn:Hloop; cbn [returned].
  - pose proof (sequential_loop_no_paths _ _ _ _ _ (λ tmp (Heq : None = Some tmp),
                  match Heq in _ = o return match o with Some _ => _ | None => True end
                  with eq_refl => I end) Hloop) as Hpaths.
    destruct tmp_result as [[period paths]|].
    + specialize (Hpaths _ eq_refl). simpl in Hpaths. subst paths.
      unfold io_lift. rewrite dict_of_one_pair_no_paths. by eexists.
    + by exists UnboundLocalError.
  - by exists e.
Qed.

(** Whatever the worker count, a mapping that [extract] returns holds no
    path. *)
Lemma extract_no_paths f tables mappings resolution nb_workers inplace options w m :
  returned (extract fu f tables mappings resolution nb_workers inplace options w)
    = Ok (ByPeriod m) →
  ∀ period paths, (period, paths) ∈ m → paths = [].
Proof.
  destruct (decide (nb_workers = 0%Z)) as [->|Hnb].
  { destruct (extract_sequential_raises f tables mappings resolution inplace options w)
      as [e ->]. done. }
  unfold extract.
  destruct (build_structures tables mappings resolution inplace) as [tables' [structures|e]].
  2:{ done. }
  unfold mbind at 1, io_bind at 1, io_lift at 1.
  unfold mbind at 1, io_bind at 1, set_globals at 1.
  rewrite (decide_True (P := (nb_workers ≠ 0)%Z)) by done.
  unfold mbind at 1, io_bind at 1, with_Pool.
  destruct (nb_workers <? 1)%Z; [done|].
  unfold mbind at 1, io_bind at 1, set_running at 1.
  destruct (pool_map _ _ _) as [[tmp_result|e] w1] eqn:Hpool; cbn [returned]; [|done].
  unfold mret, io_ret. intros [= <-] period paths Hin.
  apply elem_of_dict_of_pairs in Hin.
  apply pool_map_no_paths in Hpool. rewrite Forall_forall in Hpool.
  by apply (Hpool _ Hin).
Qed.

End dispatcher_facts.

Section dispatcher_processes.
Context `{Float64} (fu : file_utils) {DataArray : Type}.
Implicit Types (w : World DataArray) (events : list (event DataArray)).

Lemma add_events_nil w : add_events w [] = w.
Proof. destruct w. unfold add_events. simpl. by rewrite app_nil_r. Qed.

Lemma add_events_app w events events' :
  add_events (add_events w events) events' = add_events w (events ++ events').
Proof. unfold add_events. simpl. by rewrite fmap_app, app_assoc. Qed.

Lemma same_globals_add_events w w' events events' :
  same_globals w w' → same_globals (add_events w events) (add_events w' events').
Proof. done. Qed.












(** The two branches of [extract], once the structures are built. *)
Lemma extract_sequential_eq f tables mappings resolution inplace options w
    tables' structures :
  build_structures tables mappings resolution inplace = (tables', Ok structures) →
  extract fu f tables mappings resolution 0 inplace options w
  = let '(r, w') :=
      io_for_each (λ _ item, tmp_result ← __core_extraction fu item; mret (Some tmp_result))
        None (__merge_block_structures structures)
        (dispatching f options (running w) w) in
    {| returned := match r with
                   | Ok (Some tmp_result) => dict_of_one_pair tmp_result
                   | Ok None => Raise UnboundLocalError
                   | Raise e => Raise e
                   end;
       tables_after := tables';
       world_after := w' |}.
Proof.
  intros Hbuild. unfold extract. rewrite Hbuild.
  unfold mbind at 1, io_bind at 1, io_lift at 1.
  unfold mbind at 1, io_bind at 1, set_globals at 1.
  rewrite (decide_False (P := (0 ≠ 0)%Z)) by (intros Hne; by apply Hne).
  unfold mbind at 1, io_bind at 1. fold (effective_options options).
  fold (dispatching f options (running w) w).
  destruct (io_for_each _ None _ _) as [[[tmp|]|e] w']; done.
Qed.


Lemma extract_build_raises f tables mappings resolution nb_workers inplace options w
    tables' e :
  build_structures tables mappings resolution inplace = (tables', Raise e) →
  extract fu f tables mappings resolution nb_workers inplace options w
  = {| returned := Raise e; tables_after := tables'; world_after := w |}.
Proof. intros Hbuild. unfold extract. by rewrite Hbuild. Qed.


End dispatcher_processes.

(** C2. The dispatcher on the tables of two labels, with the processing
    function handing back one array per label: the spec has it write the
    files and return the paths by period and label; the code raises on the
    first label of the first period, sequentially and with a pool alike, and
    writes nothing. *)
Theorem extract_example_raises :
  let sequential :=
    @extract Z_float example_file_utils (list Z) example_processing_function
      example_tables example_mappings "month" 0 false DEFAULT_CSV_SAVE_OPTIONS
      example_world in
  let parallel :=
    @extract Z_float example_file_utils (list Z) example_processing_function
      example_tables example_mappings "month" 4 false DEFAULT_CSV_SAVE_OPTIONS
      example_world in
  returned sequential = Raise ValueError
  ∧ returned sequential ≠ Ok example_expected
  ∧ log (world_after sequential) = [(CallerProcess, Processing [VInt 2000; VInt 9])]
  ∧ returned parallel = Raise ValueError
  ∧ log (world_after parallel)
    = [(WorkerProcess, Processing [VInt 2000; VInt 9]);
       (WorkerProcess, Processing [VInt 2000; VInt 10]);
       (WorkerProcess, Processing [VInt 2001; VInt 1])].
Proof. by vm_compute. Qed.



(** The partitioner looks the rows of a group up by label, with the
    positions that the grouping gives: on a table whose labels are not the
    positions the lookup fails. *)
Example build_blocks_structure_relabelled :
  (@__build_blocks_structure Z_float example_relabelled_table example_mapping
     "month" false).2 = Raise KeyError.
Proof. reflexivity. Qed.

(** The rendering has more than two characters for a number of more than two
    digits, and a sign for a negative number. *)
Example format_02d_wide :
  @format_02d Z_float (VInt 123) = Ok "123" ∧ @format_02d Z_float (VInt (-5)) = Ok "-5".
Proof. split; reflexivity. Qed.

(** * Further properties of the code *)

(** ** The temporal block partitioner *)

Section partitioner_errors.
Context `{Float64}.



(** X1. What the partitioner returns or raises does not depend on whether it
    renames in place: the flag only decides what becomes of the caller's
    table. *)
Theorem build_blocks_structure_inplace_outcome dataframe m resolution :
  (__build_blocks_structure dataframe m resolution true).2
  = (__build_blocks_structure dataframe m resolution false).2.
Proof.
  unfold __build_blocks_structure.
  destruct (list_index resolution TimeResolution.KEYS) as [degree|]; [|done].
  match goal with |- context [match ?r with Ok _ => _ | Raise _ => _ end] =>
    destruct r as [indices|e] end; done.
Qed.


End partitioner_errors.
Section partitioner_loop.
Context `{Float64}.
Variables (df : DataFrame) (m : DBMetadataMapping).
Hypothesis Hwf : DataFrame_wf df.
Hypothesis Hfits : mapping_fits df m.

(** The partitioner up to its loop over the periods, whatever the labels of
    the rows are. *)
Lemma build_blocks_structure_loop resolution inplace :
  covers_time_fields m → resolution ∈ TimeResolution.KEYS →
  __build_blocks_structure df m resolution inplace
  = (if inplace
     then set_index_name INDEX_NAME
            (rename_columns (dict_of_pairs ((λ kv, (kv.2, kv.1)) <$> m)) df)
     else df,
     for_each (λ result period,
         block ← loc (Z.of_nat <$> positions_of period
                                     (row_period df m resolution <$> rows df))
                    (canonical_table df m);
         Ok (dict_set period block result))
       [] (table_periods df m resolution)).
Proof.
  intros Hcover Hres. unfold __build_blocks_structure.
  pose proof (grouping_keys_covered m resolution) as Hkeys.
  unfold table_periods, row_period, grouping_keys in *.
  destruct (list_index_elem_of _ _ Hres) as [degree Hdegree]. rewrite Hdegree in *.
  rewrite Nat.add_1_r.
  rewrite grouping_column_names by (intros key Hkey; by apply Hkeys).
  cbn [mbind result_bind].
  rewrite (groupby_indices_Ok df m Hfits).
  2:{ apply list_index_Some in Hdegree.
      destruct TimeResolution.KEYS; [done|]. done. }
  2:{ intros name Hname. apply list_elem_of_fmap in Hname as (key & -> & Hkey).
      apply mapped_in_columns; [done|]. by apply Hkeys. }
  rewrite (getitem_columns_canonical df m Hwf Hfits). cbn [mbind result_bind].
  assert (((λ r : Z * list value,
              cells_at (column_index (columns df) <$> (mapped m <$> take (S degree) TimeResolution.KEYS)) r.2)
             <$> rows df)
          = ((λ row : Z * list value,
                (λ key, row.2 !!! column_index (columns df) (mapped m key))
                  <$> take (S degree) TimeResolution.KEYS) <$> rows df)) as ->.
  { apply Forall_fmap_ext, Forall_forall. intros row _. unfold cells_at.
    by rewrite <- !list_fmap_compose. }
  set (row_keys := (λ row : Z * list value, _) <$> rows df).
  set (periods := merge_sort tuple_le (remove_dups row_keys)).
  assert (NoDup periods) as Hnd.
  { subst periods. rewrite merge_sort_Permutation. apply NoDup_remove_dups. }
  unfold dict_keys at 1. rewrite <- list_fmap_compose.
  rewrite (proj1 (Forall_fmap_ext _ id periods)) by by apply Forall_forall.
  rewrite list_fmap_id. f_equal.
  assert (∀ (ps : list Period) acc, (∀ p, p ∈ ps → p ∈ periods) →
            for_each (λ result index,
                positions ← dict_getitem index
                              ((λ k, (k, positions_of k row_keys)) <$> periods);
                block ← loc (Z.of_nat <$> positions) (canonical_table df m);
                Ok (dict_set index block result)) acc ps
            = for_each (λ result period,
                block ← loc (Z.of_nat <$> positions_of period row_keys)
                           (canonical_table df m);
                Ok (dict_set period block result)) acc ps) as Hloop.
  { induction ps as [|p ps IH]; intros acc Hps; [done|]. cbn [for_each].
    assert (dict_getitem p ((λ k, (k, positions_of k row_keys)) <$> periods)
            = Ok (positions_of p row_keys)) as ->.
    { unfold dict_getitem.
      rewrite (dict_get_elem_wf _ p (positions_of p row_keys)); [done| |].
      - unfold dict_wf. by rewrite dict_keys_tabulate.
      - apply list_elem_of_fmap. exists p. split; [done|].
        apply Hps, elem_of_cons. by left. }
    cbn [mbind result_bind].
    destruct (loc _ _) as [block|e]; cbn [mbind result_bind]; [|done].
    apply IH. intros q Hq. apply Hps, elem_of_cons. by right. }
  by apply Hloop.
Qed.

End partitioner_loop.

Section partitioner_more.
Context `{Float64}.

Lemma table_periods_nil (df : DataFrame) (m : DBMetadataMapping) resolution :
  table_periods df m resolution = [] ↔ rows df = [].
Proof.
  split.
  - intros Hnil. destruct (rows df) as [|row l] eqn:Hrows; [done|]. exfalso.
    assert (row_period df m resolution row ∈ table_periods df m resolution) as Hin.
    { apply elem_of_table_periods. rewrite Hrows, fmap_cons. apply list_elem_of_here. }
    rewrite Hnil in Hin. by apply elem_of_nil in Hin.
  - intros Hrows. unfold table_periods. by rewrite Hrows.
Qed.

(** X3. The groups are positions and the rows are looked up by label: on a
    table with rows and with no row labelled by a position, the partitioner
    raises KeyError. In place, the caller's table has been renamed and its
    index named by then; its rows are as before. *)
Theorem build_blocks_structure_foreign_labels (df : DataFrame) (m : DBMetadataMapping)
    (resolution : string) (inplace : bool) :
  DataFrame_wf df → mapping_fits df m → covers_time_fields m →
  resolution ∈ TimeResolution.KEYS →
  rows df ≠ [] →
  (∀ p, (p < length (rows df))%nat → Z.of_nat p ∉ index df) →
  let outcome := __build_blocks_structure df m resolution inplace in
  outcome.2 = Raise KeyError
  ∧ rows outcome.1 = rows df
  ∧ if inplace
    then columns outcome.1 = canonical_name m <$> columns df
         ∧ index_name outcome.1 = Some INDEX_NAME
    else outcome.1 = df.
Proof.
  intros Hwf Hfits Hcover Hres Hrows Hlabels. cbv zeta.
  rewrite (build_blocks_structure_loop df m Hwf Hfits resolution inplace Hcover Hres).
  cbn [fst snd]. split; [|by destruct inplace].
  destruct (table_periods df m resolution) as [|period periods] eqn:Hperiods.
  { by apply table_periods_nil in Hperiods. }
  cbn [for_each].
  assert (period ∈ row_period df m resolution <$> rows df) as Hperiod.
  { apply elem_of_table_periods. rewrite Hperiods. apply list_elem_of_here. }
  apply list_elem_of_lookup in Hperiod as [p Hp].
  pose proof (lookup_lt_Some _ _ _ Hp) as Hlt. rewrite length_fmap in Hlt.
  apply elem_of_positions_of in Hp.
  destruct (positions_of period (row_period df m resolution <$> rows df))
    as [|q positions] eqn:Hpositions; [by apply elem_of_nil in Hp|].
  assert (q < length (rows df))%nat as Hq.
  { assert (q ∈ positions_of period (row_period df m resolution <$> rows df)) as Hin
      by (rewrite Hpositions; apply list_elem_of_here).
    apply elem_of_positions_of, lookup_lt_Some in Hin. by rewrite length_fmap in Hin. }
  unfold loc. rewrite fmap_cons. cbn [traverse].
  assert (filter (λ r : Z * list value, r.1 = Z.of_nat q) (rows (canonical_table df m)) = [])
    as ->; [|done].
  assert (∀ l : list (Z * list value),
            (∀ r, r ∈ l → r.1 ≠ Z.of_nat q) → filter (λ r, r.1 = Z.of_nat q) l = [])
    as Hfilter.
  { induction l as [|r l IH]; intros Hl; [done|].
    rewrite filter_cons_False by (apply Hl, list_elem_of_here).
    apply IH. intros r' Hr'. by apply Hl, list_elem_of_further. }
  apply Hfilter. intros r Hr Heq. apply (Hlabels q Hq).
  unfold canonical_table in Hr. cbn [rows] in Hr.
  apply list_elem_of_fmap in Hr as (row0 & -> & Hrow0).
  unfold index. apply list_elem_of_fmap. exists row0. done.
Qed.

(** X4. On a table read from a file the structure has no period exactly
    when the table has no row. *)
Theorem build_blocks_structure_empty (df : DataFrame) (m : DBMetadataMapping)
    (resolution : string) (inplace : bool) :
  DataFrame_wf df → positional_index df → mapping_fits df m →
  covers_time_fields m → resolution ∈ TimeResolution.KEYS →
  ∃ structure,
    (__build_blocks_structure df m resolution inplace).2 = Ok structure
    ∧ (structure = [] ↔ rows df = []).
Proof.
  intros Hwf Hpos Hfits Hcover Hres. eexists. split.
  { by apply build_blocks_structure_eq. }
  rewrite <- (table_periods_nil df m resolution).
  destruct (table_periods df m resolution); done.
Qed.




End partitioner_more.

(** The hypotheses of the partitioner's theorems on the example tables. *)
Ltac example_table_fits :=
  lazymatch goal with
  | |- DataFrame_wf _ => unfold DataFrame_wf; compute_done
  | |- positional_index _ => reflexivity
  | |- mapping_fits ?df ?m =>
      unfold mapping_fits, dict_wf; split_and!; [compute_done..| |];
      [ apply Forall_forall; compute_done
      | apply (Forall_forall (λ column, column ∈ dict_keys m → column ∈ dict_values m)
                 (columns df)); compute_done ]
  | |- covers_time_fields _ => unfold covers_time_fields; apply Forall_forall; compute_done
  | |- _ ∈ TimeResolution.KEYS => compute_done
  end.


(** X3 on the table whose rows are labelled 5, 6, 7. *)
Lemma build_blocks_structure_foreign_labels_witness :
  (@__build_blocks_structure Z_float example_relabelled_table example_mapping "month" true).2
  = Raise KeyError.
Proof.
  apply (@build_blocks_structure_foreign_labels Z_float example_relabelled_table
           example_mapping "month" true); try example_table_fits.
  - done.
  - intros p Hp.
    assert (p = 0 ∨ p = 1 ∨ p = 2)%nat as [->|[->| ->]] by (vm_compute in Hp; lia);
      compute_done.
Defined.

(** X4 on the first example table. *)
Lemma build_blocks_structure_empty_witness :
  is_Ok (@__build_blocks_structure Z_float example_table example_mapping "month" false).2.
Proof.
  destruct (@build_blocks_structure_empty Z_float example_table example_mapping
              "month" false) as (structure & Hstructure & _); try example_table_fits.
  by exists structure.
Defined.



(** ** The cross-label block merger and the record converter *)


Lemma traverse_Ok_inv {A B} (f : A → result B) (l : list A) ys :
  traverse f l = Ok ys → Forall2 (λ x y, f x = Ok y) l ys.
Proof.
  revert ys. induction l as [|x l IH]; intros ys; simpl.
  - intros [= <-]. constructor.
  - destruct (f x) as [y|e] eqn:Hx; cbn [mbind result_bind]; [|done].
    destruct (traverse f l) as [ys'|e]; cbn [mbind result_bind]; [|done].
    intros [= <-]. constructor; auto.
Qed.

Section merger_more.
Context `{Float64}.


(** X8. Under a period of the merged structure the labels come in the order
    of the labels of the input. *)
Theorem merge_block_structures_label_order
    (structures : dict string (dict Period Block)) (period : Period)
    (blocks : dict string Block) :
  dict_wf structures →
  dict_get period (__merge_block_structures structures) = Some blocks →
  dict_keys blocks `sublist_of` dict_keys structures.
Proof.
  intros Hwf. rewrite dict_get_merge_block_structures by done.
  case_decide; [|done]. intros [= <-]. apply blocks_of_labels.
Qed.

End merger_more.


(** X8 on the two example labels, for October 2000. *)
Lemma merge_block_structures_label_order_witness :
  dict_keys (default [] (dict_get [VInt 2000; VInt 10]
                           (@__merge_block_structures Z_float example_structures)))
    `sublist_of` dict_keys example_structures.
Proof.
  apply (@merge_block_structures_label_order Z_float example_structures
           [VInt 2000; VInt 10]).
  - unfold dict_wf. compute_done.
  - reflexivity.
Defined.

Section converter_more.
Context `{Float64}.

Lemma format_02d_Ok_inv (x : value) s : format_02d x = Ok s → ∃ z, x = VInt z.
Proof. destruct x as [z| |]; [by exists z | done | done]. Qed.

Lemma convert_record_Ok_inv (record converted : dict string value) :
  convert_record record = Ok converted →
  ∃ m d h, dict_get TimeResolution.MONTH record = Some (VInt m)
           ∧ dict_get TimeResolution.DAY record = Some (VInt d)
           ∧ dict_get TimeResolution.HOUR record = Some (VInt h).
Proof.
  unfold convert_record, dict_getitem.
  destruct (dict_get TimeResolution.MONTH record) as [month|] eqn:Hmonth;
    cbn [mbind result_bind]; [|done].
  destruct (format_02d month) as [month2d|] eqn:Hmonth2d; cbn [mbind result_bind]; [|done].
  rewrite dict_get_set_ne by done.
  destruct (dict_get TimeResolution.DAY record) as [day|] eqn:Hday;
    cbn [mbind result_bind]; [|done].
  destruct (format_02d day) as [day2d|] eqn:Hday2d; cbn [mbind result_bind]; [|done].
  rewrite !dict_get_set_ne by done.
  destruct (dict_get TimeResolution.HOUR record) as [hour|] eqn:Hhour;
    cbn [mbind result_bind]; [|done].
  destruct (format_02d hour) as [hour2d|] eqn:Hhour2d; cbn [mbind result_bind]; [|done].
  intros _.
  apply format_02d_Ok_inv in Hmonth2d as [m ->].
  apply format_02d_Ok_inv in Hday2d as [d ->].
  apply format_02d_Ok_inv in Hhour2d as [h ->].
  by exists m, d, h.
Qed.

(** X9. When the converter returns, it returns one record per row, and every
    row of the block has an integer month, day and hour. *)
Theorem convert_block_to_dict_Ok_inv (block : Block) (records : list (dict string value)) :
  DataFrame_wf block → NoDup (columns block) →
  convert_block_to_dict block = Ok records →
  length records = length (rows block)
  ∧ ∀ row, row ∈ rows block →
      ∃ m d h, cell block row TimeResolution.MONTH = Some (VInt m)
               ∧ cell block row TimeResolution.DAY = Some (VInt d)
               ∧ cell block row TimeResolution.HOUR = Some (VInt h).
Proof.
  intros Hwf Hnd Hrecords. unfold convert_block_to_dict in Hrecords.
  apply traverse_Ok_inv in Hrecords. split.
  - apply Forall2_length in Hrecords. unfold to_dict_records in Hrecords.
    by rewrite length_fmap in Hrecords.
  - intros row Hrow. unfold to_dict_records in Hrecords.
    apply Forall2_fmap_l in Hrecords.
    apply list_elem_of_lookup in Hrow as [i Hi].
    destruct (Forall2_lookup_l _ _ _ _ _ Hrecords Hi) as (converted & _ & Hconverted).
    simpl in Hconverted.
    apply convert_record_Ok_inv in Hconverted as (m & d & h & Hm & Hd & Hh).
    assert (row ∈ rows block) as Hrow by by eapply list_elem_of_lookup_2.
    rewrite to_dict_records_get in Hm, Hd, Hh by done.
    by exists m, d, h.
Qed.

(** X10. On a block with a row and without a month column the converter
    raises KeyError. *)
Theorem convert_block_to_dict_no_month (block : Block) :
  rows block ≠ [] → TimeResolution.MONTH ∉ columns block →
  convert_block_to_dict block = Raise KeyError.
Proof.
  intros Hrows Hmonth. unfold convert_block_to_dict, to_dict_records.
  destruct (rows block) as [|row l]; [done|].
  rewrite fmap_cons. cbn [traverse].
  assert (convert_record (dict_of_pairs (zip (columns block) row.2)) = Raise KeyError)
    as ->; [|done].
  unfold convert_record, dict_getitem.
  destruct (dict_get TimeResolution.MONTH (dict_of_pairs (zip (columns block) row.2)))
    as [month|] eqn:Hget; [|done].
  exfalso. apply Hmonth.
  apply dict_get_Some_elem, elem_of_dict_of_pairs in Hget. by eapply elem_of_zip_l.
Qed.

(** X11. Two values of at most two digits with the same two-digit rendering
    are the same value. *)
Theorem format_02d_inj (a b : Z) :
  (0 ≤ a ≤ 99)%Z → (0 ≤ b ≤ 99)%Z →
  format_02d (VInt a) = format_02d (VInt b) → a = b.
Proof.
  intros Ha Hb. rewrite !format_02d_two_digits by done.
  assert (0 ≤ a / 10 < 10)%Z
    by (split; [apply Z.div_pos | apply Z.div_lt_upper_bound]; lia).
  assert (0 ≤ b / 10 < 10)%Z
    by (split; [apply Z.div_pos | apply Z.div_lt_upper_bound]; lia).
  pose proof (Z.mod_pos_bound a 10). pose proof (Z.mod_pos_bound b 10).
  unfold two_digits. intros [= Htens Hunits].
  apply (f_equal nat_of_ascii) in Htens, Hunits.
  rewrite !nat_ascii_embedding in Htens, Hunits by lia.
  rewrite (Z.div_mod a 10), (Z.div_mod b 10) by lia.
  assert (a / 10 = b / 10)%Z as -> by lia.
  assert (a mod 10 = b mod 10)%Z as -> by lia.
  done.
Qed.

End converter_more.

(** X9 on the block of October 2000. *)
Lemma convert_block_to_dict_Ok_inv_witness :
  length (match @convert_block_to_dict Z_float example_block with
          | Ok records => records
          | Raise _ => []
          end) = length (rows example_block).
Proof.
  apply (@convert_block_to_dict_Ok_inv Z_float example_block).
  - unfold DataFrame_wf. compute_done.
  - compute_done.
  - reflexivity.
Defined.

(** X10 on a block with a year only. *)
Lemma convert_block_to_dict_no_month_witness :
  @convert_block_to_dict Z_float
    {| columns := ["year"]; index_name := None; rows := [(0%Z, [VInt 2000])] |}
  = Raise KeyError.
Proof.
  apply (@convert_block_to_dict_no_month Z_float).
  - done.
  - compute_done.
Defined.

(** X11 on the value 7. *)
Lemma format_02d_inj_witness : (7 = 7)%Z.
Proof. apply (@format_02d_inj Z_float 7 7); [lia | lia | reflexivity]. Defined.

(** ** The dispatcher *)


Section dispatcher_log.
Context `{Float64} (fu : file_utils) {DataArray : Type}.
Variables (f : processing_function DataArray) (o : CsvOptions).
Variable P : event DataArray → Prop.
Implicit Types (w : World DataArray) (events : list (event DataArray)).

Lemma configured_add_events w events :
  configured f o w → configured f o (add_events w events).
Proof. done. Qed.

Lemma logs_only_ret {A} (a : A) : logs_only f o P (mret a).
Proof. intros w _. exists (Ok a), []. by rewrite add_events_nil. Qed.

Lemma logs_only_raise {A} e : logs_only f o P (io_raise (A := A) e).
Proof. intros w _. exists (Raise e), []. by rewrite add_events_nil. Qed.

Lemma logs_only_emit (ev : event DataArray) : P ev → logs_only f o P (emit ev).
Proof. intros HP w _. exists (Ok ()), [ev]. split; [done|]. by constructor. Qed.

Lemma logs_only_bind {A B} (m : io DataArray A) (k : A → io DataArray B) :
  logs_only f o P m → (∀ a, logs_only f o P (k a)) → logs_only f o P (m ≫= k).
Proof.
  intros Hm Hk w Hw. destruct (Hm w Hw) as (r & events & Hrun & Hevents).
  unfold mbind, io_bind. rewrite Hrun. destruct r as [a|e].
  - destruct (Hk a (add_events w events) (configured_add_events _ _ Hw))
      as (r' & events' & Hrun' & Hevents').
    exists r', (events ++ events'). rewrite Hrun', add_events_app. split; [done|].
    by apply Forall_app.
  - by exists (Raise e), events.
Qed.

Lemma logs_only_lift_bind {A B} (r : result A) (k : A → io DataArray B) :
  (∀ a, r = Ok a → logs_only f o P (k a)) → logs_only f o P (io_lift r ≫= k).
Proof.
  intros Hk w Hw. unfold mbind, io_bind, io_lift. destruct r as [a|e].
  - by apply Hk.
  - exists (Raise e), []. by rewrite add_events_nil.
Qed.

Lemma logs_only_read_function {B} (k : processing_function DataArray → io DataArray B) :
  logs_only f o P (k f) → logs_only f o P (read_global g_processing_function ≫= k).
Proof.
  intros Hk w Hw. unfold mbind, io_bind, read_global.
  destruct Hw as [Hf Ho]. rewrite Hf. by apply Hk.
Qed.

Lemma logs_only_read_options {B} (k : CsvOptions → io DataArray B) :
  logs_only f o P (k o) → logs_only f o P (read_global g_csv_save_options ≫= k).
Proof.
  intros Hk w Hw. unfold mbind, io_bind, read_global.
  destruct Hw as [Hf Ho]. rewrite Ho. by apply Hk.
Qed.

Lemma logs_only_for_each {A S} (body : S → A → io DataArray S) s l :
  (∀ s x, logs_only f o P (body s x)) → logs_only f o P (io_for_each body s l).
Proof.
  intros Hbody. revert s. induction l as [|x l IH]; intros s; cbn [io_for_each].
  - apply logs_only_ret.
  - apply logs_only_bind; [apply Hbody | apply IH].
Qed.

Lemma logs_only_pool_map {A B} (func : A → io DataArray B) items :
  (∀ x, logs_only f o P (func x)) → logs_only f o P (pool_map func items).
Proof.
  intros Hfunc. induction items as [|x items IH]; cbn [pool_map].
  - apply logs_only_ret.
  - intros w Hw. destruct (Hfunc x w Hw) as (r & events & -> & Hevents).
    destruct (IH (add_events w events) (configured_add_events _ _ Hw))
      as (r' & events' & Hrun' & Hevents').
    rewrite Hrun', add_events_app.
    destruct r as [y|e]; [destruct r' as [ys|e]|];
      eexists _, (events ++ events'); (split; [done | by apply Forall_app]).
Qed.

Hypothesis P_MakeDirs : ∀ path, P (MakeDirs path).
Hypothesis P_ToCsv : ∀ path block, P (ToCsv path block o).

Lemma logs_only_core_extraction_label period blocks file_prefix_path result
    (item : pyobj DataArray) :
  logs_only f o P (core_extraction_label fu period blocks file_prefix_path result item).
Proof.
  unfold core_extraction_label.
  apply logs_only_lift_bind. intros [label_id data_block] Hitem.
  apply unpack2_Ok in Hitem as [s ->].
  apply logs_only_lift_bind. intros label _.
  apply logs_only_bind;
    [case_decide; [apply logs_only_raise | by apply logs_only_emit] | intros _].
  apply logs_only_lift_bind. intros block _.
  apply logs_only_read_options.
  apply logs_only_bind; [by apply logs_only_emit | intros _].
  apply logs_only_lift_bind. intros values Hvalues. done.
Qed.

Hypothesis P_Processing : ∀ period, P (Processing period).

Lemma logs_only_core_extraction item : logs_only f o P (__core_extraction fu item).
Proof.
  destruct item as [period blocks]. unfold __core_extraction.
  apply logs_only_read_function.
  apply logs_only_bind; [by apply logs_only_emit | intros _].
  apply logs_only_lift_bind. intros [file_prefix_path extracted] _.
  apply logs_only_bind; [|intros result; apply logs_only_ret].
  apply logs_only_for_each. intros. apply logs_only_core_extraction_label.
Qed.

End dispatcher_log.

Section dispatcher_more.
Context `{Float64} (fu : file_utils) {DataArray : Type}.
Implicit Types (w : World DataArray) (events : list (event DataArray)).

Lemma extract_pool_eq (f : processing_function DataArray) tables mappings resolution
    nb_workers inplace options w tables' structures :
  (1 ≤ nb_workers)%Z →
  build_structures tables mappings resolution inplace = (tables', Ok structures) →
  extract fu f tables mappings resolution nb_workers inplace options w
  = let '(r, w') :=
      pool_map (__core_extraction fu) (__merge_block_structures structures)
        (dispatching f options WorkerProcess w) in
    {| returned := (λ tmp_result, ByPeriod (dict_of_pairs tmp_result)) <$> r;
       tables_after := tables';
       world_after := {| g_processing_function := g_processing_function w';
                         g_csv_save_options := g_csv_save_options w';
                         running := running w;
                         log := log w' |} |}.
Proof.
  intros Hnb Hbuild. unfold extract. rewrite Hbuild.
  unfold mbind at 1, io_bind at 1, io_lift at 1.
  unfold mbind at 1, io_bind at 1, set_globals at 1.
  rewrite (decide_True (P := (nb_workers ≠ 0)%Z)) by lia.
  unfold mbind at 1, io_bind at 1, with_Pool.
  rewrite (proj2 (Z.ltb_ge nb_workers 1)) by done.
  unfold mbind at 1, io_bind at 1, set_running at 1. fold (effective_options options).
  cbn [g_processing_function g_csv_save_options running log].
  fold (dispatching f options WorkerProcess w).
  destruct (pool_map _ _ _) as [[tmp|e] w']; done.
Qed.

Lemma extract_negative_eq (f : processing_function DataArray) tables mappings resolution
    nb_workers inplace options w tables' structures :
  (nb_workers < 0)%Z →
  build_structures tables mappings resolution inplace = (tables', Ok structures) →
  extract fu f tables mappings resolution nb_workers inplace options w
  = {| returned := Raise ValueError;
       tables_after := tables';
       world_after := dispatching f options (running w) w |}.
Proof.
  intros Hnb Hbuild. unfold extract. rewrite Hbuild.
  unfold mbind at 1, io_bind at 1, io_lift at 1.
  unfold mbind at 1, io_bind at 1, set_globals at 1.
  rewrite (decide_True (P := (nb_workers ≠ 0)%Z)) by lia.
  unfold mbind at 1, io_bind at 1, with_Pool.
  rewrite (proj2 (Z.ltb_lt nb_workers 1)) by lia.
  unfold io_raise. fold (effective_options options). done.
Qed.

Lemma configured_dispatching (f : processing_function DataArray) options p w :
  configured f (effective_options options) (dispatching f options p w).
Proof. done. Qed.

(** What [extract] adds to the log is of the kind of what the processing of
    one period adds. *)
Lemma extract_log (P : event DataArray → Prop)
    (f : processing_function DataArray) tables mappings resolution nb_workers inplace
    options w :
  (∀ item, logs_only f (effective_options options) P (__core_extraction fu item)) →
  ∃ process events,
    log (world_after (extract fu f tables mappings resolution nb_workers inplace options w))
    = log w ++ ((λ ev, (process, ev)) <$> events)
    ∧ Forall P events.
Proof.
  intros Hcore.
  destruct (build_structures tables mappings resolution inplace)
    as [tables' [structures|e]] eqn:Hbuild.
  2:{ rewrite (extract_build_raises _ _ _ _ _ _ _ _ _ _ _ Hbuild).
      exists CallerProcess, []. cbn. by rewrite app_nil_r. }
  destruct (Z.lt_trichotomy nb_workers 0) as [Hnb|[->|Hnb]].
  - rewrite (extract_negative_eq _ _ _ _ _ _ _ _ _ _ Hnb Hbuild).
    exists CallerProcess, []. cbn. by rewrite app_nil_r.
  - rewrite (extract_sequential_eq _ _ _ _ _ _ _ _ _ _ Hbuild).
    destruct (logs_only_for_each f (effective_options options) P
                (λ _ item, tmp_result ← __core_extraction fu item; mret (Some tmp_result))
                None (__merge_block_structures structures)) with
      (w := dispatching f options (running w) w) as (r & events & -> & Hevents).
    + intros _ item. apply logs_only_bind; [apply Hcore | intros; apply logs_only_ret].
    + apply configured_dispatching.
    + exists (running w), events. done.
  - assert (1 ≤ nb_workers)%Z as Hpool by lia.
    rewrite (extract_pool_eq _ _ _ _ _ _ _ _ _ _ Hpool Hbuild).
    destruct (logs_only_pool_map f (effective_options options) P
                (__core_extraction fu) (__merge_block_structures structures) Hcore
                (dispatching f options WorkerProcess w) (configured_dispatching _ _ _ _))
      as (r & events & -> & Hevents).
    exists WorkerProcess, events. done.
Qed.

(** X12. Whatever its arguments, [extract] keeps the log and adds to it, and
    nothing that it adds is the writing of an HDF5 file: the loop over the
    extracted data fails on every item before it gets to write one. *)
Theorem extract_never_writes_hdf5
    (f : processing_function DataArray) (tables : dict string DataFrame)
    (mappings : dict string DBMetadataMapping) (resolution : string) (nb_workers : Z)
    (inplace : bool) (options : CsvOptions) (w : World DataArray) :
  ∃ entries,
    log (world_after (extract fu f tables mappings resolution nb_workers inplace options w))
    = log w ++ entries
    ∧ ∀ process path values, (process, WriteHdf5 path values) ∉ entries.
Proof.
  destruct (extract_log (λ ev, ¬ is_WriteHdf5 ev) f tables mappings resolution nb_workers
              inplace options w) as (process & events & Hlog & Hevents).
  { intros item. apply logs_only_core_extraction; intros; by intros []. }
  eexists. split; [exact Hlog|].
  intros process' path values Hin.
  apply list_elem_of_fmap in Hin as (ev & Heq & Hev). injection Heq as -> <-.
  rewrite Forall_forall in Hevents. by apply (Hevents _ Hev).
Qed.

(** X13. Every metadata block that [extract] saves is saved with the
    caller's options, but for the line terminator: the escaped one of the
    default options is replaced by a line feed. *)
Theorem extract_saves_with_options
    (f : processing_function DataArray) (tables : dict string DataFrame)
    (mappings : dict string DBMetadataMapping) (resolution : string) (nb_workers : Z)
    (inplace : bool) (options : CsvOptions) (w : World DataArray) :
  ∃ entries,
    log (world_after (extract fu f tables mappings resolution nb_workers inplace options w))
    = log w ++ entries
    ∧ ∀ process path block saved, (process, ToCsv path block saved) ∈ entries →
        (∀ key, key ≠ CsvOptNames.SAVE_LINE_TERMINATOR →
           dict_get key saved = dict_get key options)
        ∧ dict_get CsvOptNames.SAVE_LINE_TERMINATOR saved
          = (if decide (dict_get CsvOptNames.SAVE_LINE_TERMINATOR options = Some "\n")
             then Some newline
             else dict_get CsvOptNames.SAVE_LINE_TERMINATOR options).
Proof.
  destruct (extract_log (saved_with (effective_options options)) f tables mappings
              resolution nb_workers inplace options w) as (process & events & Hlog & Hevents).
  { intros item. by apply logs_only_core_extraction. }
  eexists. split; [exact Hlog|].
  intros process' path block saved Hin.
  apply list_elem_of_fmap in Hin as (ev & Heq & Hev). injection Heq as -> <-.
  rewrite Forall_forall in Hevents. specialize (Hevents _ Hev). simpl in Hevents.
  subst saved. unfold effective_options.
  change (dict_get CsvOptNames.SAVE_LINE_TERMINATOR DEFAULT_CSV_SAVE_OPTIONS)
    with (Some "\n").
  destruct (dict_contains CsvOptNames.SAVE_LINE_TERMINATOR options) eqn:Hcontains.
  - case_decide as Hdefault.
    + split; [intros key Hkey; by rewrite dict_get_set_ne | by rewrite dict_get_set_eq].
    + done.
  - split; [done|]. rewrite decide_False; [done|].
    intros Hget. unfold dict_contains in Hcontains.
    apply bool_decide_eq_false in Hcontains. apply Hcontains. by rewrite Hget.
Qed.


Lemma processed_app events events' :
  processed (events ++ events') = processed events ++ processed events'.
Proof. unfold processed. apply omap_app. Qed.

Lemma processed_others events :
  Forall (λ ev, ¬ is_Processing ev) events → processed events = [].
Proof.
  induction 1 as [|ev events Hev _ IH]; [done|].
  unfold processed in *. destruct ev; simpl in *; done.
Qed.

(** One period in a world whose globals are set: the period is announced
    first, and the processing returns exactly when the processing function
    hands back no data, with no path. *)
Lemma core_extraction_run (f : processing_function DataArray) o w period blocks :
  configured f o w →
  ∃ r events,
    __core_extraction fu (period, blocks) w = (r, add_events w events)
    ∧ processed events = [period]
    ∧ (is_Ok r ↔ ∃ file_prefix_path, f period blocks = Ok (file_prefix_path, []))
    ∧ (is_Ok r → r = Ok (period, [])).
Proof.
  intros Hw. unfold __core_extraction.
  unfold mbind at 1, io_bind at 1, read_global at 1.
  destruct Hw as [Hf Ho]. rewrite Hf.
  unfold mbind at 1, io_bind at 1, emit at 1.
  change {| g_processing_function := g_processing_function w;
            g_csv_save_options := g_csv_save_options w;
            running := running w;
            log := log w ++ [(running w, Processing period)] |}
    with (add_events w [Processing period]).
  unfold mbind at 1, io_bind at 1, io_lift at 1.
  destruct (f period blocks) as [[file_prefix_path data]|e] eqn:Hdata.
  2:{ exists (Raise e), [Processing period]. split_and!; [done | done | | by intros [? ?]].
      split; [by intros [? ?] | by intros [? ?]]. }
  destruct (logs_only_for_each f o (λ ev, ¬ is_Processing ev)
              (core_extraction_label fu period blocks file_prefix_path) []
              (iter_dict data)) with (w := add_events w [Processing period])
    as (r & events & Hrun & Hevents).
  { intros. apply logs_only_core_extraction_label; intros; by intros []. }
  { done. }
  unfold mbind at 1, io_bind at 1. rewrite Hrun, add_events_app.
  destruct r as [paths|e].
  - apply io_for_each_raising in Hrun as (Hnil & -> & _).
    2:{ intros. apply core_extraction_label_raises. }
    assert (data = []) as ->.
    { unfold iter_dict, dict_keys in Hnil. by destruct data. }
    exists (Ok (period, [])), ([Processing period] ++ events).
    split_and!; [done | | | done].
    + rewrite processed_app, (processed_others events) by done. done.
    + split; [by exists file_prefix_path | by eexists].
  - exists (Raise e), ([Processing period] ++ events).
    split_and!; [done | | | by intros [? ?]].
    + rewrite processed_app, (processed_others events) by done. done.
    + split; [by intros [? ?]|]. intros [prefix [= -> ->]].
      cbn in Hrun. unfold mret, io_ret in Hrun. done.
Qed.

Lemma pool_map_run (f : processing_function DataArray) o items w :
  configured f o w →
  ∃ r events,
    pool_map (__core_extraction fu) items w = (r, add_events w events)
    ∧ processed events = items.*1
    ∧ (is_Ok r ↔ ∀ period blocks, (period, blocks) ∈ items →
                   ∃ file_prefix_path, f period blocks = Ok (file_prefix_path, []))
    ∧ (is_Ok r → r = Ok ((λ item, (item.1, [])) <$> items)).
Proof.
  revert w. induction items as [|[period blocks] items IH]; intros w Hw; cbn [pool_map].
  - exists (Ok []), []. rewrite add_events_nil. split_and!; [done | done | | done].
    split; [|by eexists]. intros _ period blocks Hin. by apply elem_of_nil in Hin.
  - destruct (core_extraction_run f o w period blocks Hw)
      as (r & events & -> & Hprocessed & Hiff & Hr).
    destruct (IH (add_events w events) (configured_add_events f o _ _ Hw))
      as (r' & events' & Hrun' & Hprocessed' & Hiff' & Hr').
    rewrite Hrun', add_events_app.
    assert (processed (events ++ events') = ((period, blocks) :: items).*1) as Hall.
    { by rewrite processed_app, Hprocessed, Hprocessed'. }
    destruct r as [y|e].
    + assert (y = (period, [])) as ->.
      { assert (Ok y = Ok (period, [])) as Heq by (apply Hr; by eexists).
        by injection Heq. }
      destruct r' as [ys|e].
      * assert (ys = (λ item, (item.1, [])) <$> items) as ->.
        { assert (Ok ys = Ok ((λ item, (item.1, [])) <$> items)) as Heq
            by (apply Hr'; by eexists).
          by injection Heq. }
        eexists _, _. split_and!; [done | done | | done].
        split; [|by eexists]. intros _ period' blocks' Hin.
        apply elem_of_cons in Hin as [[= -> ->]|Hin].
        -- apply Hiff. by eexists.
        -- apply Hiff'; [by eexists | done].
      * eexists _, _. split_and!; [done | done | | by intros [? ?]].
        split; [by intros [? ?]|]. intros Hitems.
        assert (is_Ok (Raise (A := list (Period * dict string label_paths)) e)) as [? ?];
          [|done].
        apply Hiff'. intros period' blocks' Hin. apply Hitems, elem_of_cons. by right.
    + eexists _, _. split_and!; [done | done | | by intros [? ?]].
      split; [by intros [? ?]|]. intros Hitems.
      assert (is_Ok (Raise (A := Period * dict string label_paths) e)) as [? ?]; [|done].
      apply Hiff, Hitems, elem_of_cons. by left.
Qed.


(** The loop of [extract] over the labels, from any state of its
    accumulator. *)
Lemma build_structures_raised (mappings : dict string DBMetadataMapping) resolution inplace
    (l : dict string DataFrame) tables e :
  foldl (λ acc '(label_id, dataframe),
      match acc with
      | (tables, Ok structures) =>
          match dict_getitem label_id mappings with
          | Raise e => (tables, Raise e)
          | Ok db_metadata_mapping =>
              let '(dataframe', structure) :=
                __build_blocks_structure dataframe db_metadata_mapping resolution inplace in
              (dict_set label_id dataframe' tables,
               structure ← structure; Ok (dict_set label_id structure structures))
          end
      | (tables, Raise e) => (tables, Raise e)
      end) (tables, Raise e) l
  = (tables, Raise e).
Proof. induction l as [|[label df] l IH]; [done|]. simpl. apply IH. Qed.

Lemma build_structures_wf tables mappings resolution inplace tables' structures :
  build_structures tables mappings resolution inplace = (tables', Ok structures) →
  dict_wf structures.
Proof.
  unfold build_structures.
  assert (dict_wf ([] : dict string (dict Period Block))) as Hnil by apply NoDup_nil_2.
  revert Hnil. generalize ([] : dict string (dict Period Block)).
  generalize tables at 2. intros l. revert tables.
  induction l as [|[label df] l IH]; intros tables acc Hacc; simpl.
  - by intros [= _ <-].
  - destruct (dict_getitem label mappings) as [m|e].
    2:{ by rewrite build_structures_raised. }
    destruct (__build_blocks_structure df m resolution inplace) as [df' [structure|e]];
      cbn [mbind result_bind].
    2:{ by rewrite build_structures_raised. }
    apply IH. by apply dict_wf_set.
Qed.

Lemma build_structures_missing tables mappings resolution inplace label :
  label ∈ dict_keys tables → label ∉ dict_keys mappings →
  ∃ e, (build_structures tables mappings resolution inplace).2 = Raise e.
Proof.
  intros Hlabel Hmissing. unfold build_structures.
  generalize ([] : dict string (dict Period Block)).
  revert Hlabel. generalize tables at 1 3. intros l. revert tables.
  induction l as [|[label' df] l IH]; intros tables Hlabel acc; simpl.
  - by apply elem_of_nil in Hlabel.
  - destruct (dict_getitem label' mappings) as [m|e] eqn:Hm.
    2:{ rewrite build_structures_raised. by exists e. }
    destruct (__build_blocks_structure df m resolution inplace) as [df' [structure|e]];
      cbn [mbind result_bind].
    2:{ rewrite build_structures_raised. by exists e. }
    apply IH. unfold dict_keys in Hlabel. rewrite fmap_cons in Hlabel.
    apply elem_of_cons in Hlabel as [->|Hlabel]; [|done].
    exfalso. apply Hmissing, dict_get_is_Some. unfold dict_getitem in Hm.
    simpl. destruct (dict_get label' mappings); [by eexists | done].
Qed.

Lemma tables_after_extract (f : processing_function DataArray) tables mappings resolution
    nb_workers inplace options w :
  tables_after (extract fu f tables mappings resolution nb_workers inplace options w)
  = (build_structures tables mappings resolution inplace).1.
Proof.
  unfold extract.
  destruct (build_structures tables mappings resolution inplace) as [tables' structures].
  match goal with |- context [match ?x with (_, _) => _ end] => by destruct x end.
Qed.

Lemma dict_set_Forall2 {V} (R : V → V → Prop) (t tables : dict string V) label v v' :
  Forall2 (λ a b, a.1 = b.1 ∧ R a.2 b.2) t tables →
  dict_wf tables → (label, v) ∈ tables → R v' v →
  Forall2 (λ a b, a.1 = b.1 ∧ R a.2 b.2) (dict_set label v' t) tables.
Proof.
  intros Hall Hwf Hin HR. induction Hall as [|[k a] [k' b] t tables [Hk Hab] Hall IH].
  - by apply elem_of_nil in Hin.
  - simpl in Hk. subst k'. unfold dict_wf, dict_keys in Hwf. rewrite fmap_cons in Hwf.
    apply NoDup_cons in Hwf as [Hnotin Hwf]. cbn [dict_set].
    destruct (decide (label = k)) as [->|Hne].
    + constructor; [|done]. split; [done|]. simpl.
      apply elem_of_cons in Hin as [[= <-]|Hin]; [done|].
      exfalso. apply Hnotin. apply list_elem_of_fmap. by exists (k, v).
    + constructor; [done|]. apply IH; [done|].
      apply elem_of_cons in Hin as [[= -> ->]|Hin]; done.
Qed.

Lemma build_structures_tables (R : DataFrame → DataFrame → Prop) tables mappings
    resolution inplace :
  (∀ df, R df df) →
  (∀ df m, R (__build_blocks_structure df m resolution inplace).1 df) →
  dict_wf tables →
  Forall2 (λ a b, a.1 = b.1 ∧ R a.2 b.2)
    (build_structures tables mappings resolution inplace).1 tables.
Proof.
  intros Hrefl Hbuild Hwf. unfold build_structures.
  assert (∀ (l t : dict string DataFrame) acc,
            Forall2 (λ a b : string * DataFrame, a.1 = b.1 ∧ R a.2 b.2) t tables →
            (∀ item, item ∈ l → item ∈ tables) →
            Forall2 (λ a b : string * DataFrame, a.1 = b.1 ∧ R a.2 b.2)
              (foldl (λ acc '(label_id, dataframe),
                   match acc with
                   | (tables, Ok structures) =>
                       match dict_getitem label_id mappings with
                       | Raise e => (tables, Raise e)
                       | Ok db_metadata_mapping =>
                           let '(dataframe', structure) :=
                             __build_blocks_structure dataframe db_metadata_mapping
                               resolution inplace in
                           (dict_set label_id dataframe' tables,
                            structure ← structure;
                            Ok (dict_set label_id structure structures))
                       end
                   | (tables, Raise e) => (tables, Raise e)
                   end) (t, Ok acc) l).1 tables) as Hloop.
  { induction l as [|[label df] l IH]; intros t acc Hacc Hsub; simpl; [done|].
    destruct (dict_getitem label mappings) as [m|e].
    2:{ by rewrite build_structures_raised. }
    pose proof (Hbuild df m) as Hdf.
    destruct (__build_blocks_structure df m resolution inplace) as [df' structure].
    assert (Forall2 (λ a b : string * DataFrame, a.1 = b.1 ∧ R a.2 b.2)
              (dict_set label df' t) tables) as Hacc'.
    { eapply dict_set_Forall2; [done | done | | done].
      apply Hsub, list_elem_of_here. }
    destruct structure as [structure|e]; cbn [mbind result_bind].
    2:{ by rewrite build_structures_raised. }
    apply IH; [done|]. intros item Hitem. by apply Hsub, list_elem_of_further. }
  apply Hloop; [|done]. apply Forall_Forall2_diag, Forall_forall. done.
Qed.

Lemma build_blocks_structure_rows (df : DataFrame) (m : DBMetadataMapping) resolution
    inplace :
  rows (__build_blocks_structure df m resolution inplace).1 = rows df.
Proof.
  unfold __build_blocks_structure.
  destruct (list_index resolution TimeResolution.KEYS) as [degree|]; [|done].
  match goal with |- context [match ?r with Ok _ => _ | Raise _ => _ end] =>
    destruct r as [indices|e] end; [|done].
  by destruct inplace.
Qed.

Lemma build_blocks_structure_not_inplace (df : DataFrame) (m : DBMetadataMapping)
    resolution :
  (__build_blocks_structure df m resolution false).1 = df.
Proof.
  unfold __build_blocks_structure.
  destruct (list_index resolution TimeResolution.KEYS) as [degree|]; [|done].
  match goal with |- context [match ?r with Ok _ => _ | Raise _ => _ end] =>
    destruct r as [indices|e] end; done.
Qed.


(** X14. When [extract] returns, the worker count is at least one and what
    is returned maps periods to dictionaries without any path: the
    sequential dispatch never returns. *)
Theorem extract_returned_shape
    (f : processing_function DataArray) (tables : dict string DataFrame)
    (mappings : dict string DBMetadataMapping) (resolution : string) (nb_workers : Z)
    (inplace : bool) (options : CsvOptions) (w : World DataArray) (r : extract_result) :
  returned (extract fu f tables mappings resolution nb_workers inplace options w) = Ok r →
  (1 ≤ nb_workers)%Z
  ∧ ∃ m, r = ByPeriod m ∧ ∀ period paths, (period, paths) ∈ m → paths = [].
Proof.
  intros Hreturned.
  destruct (build_structures tables mappings resolution inplace)
    as [tables' [structures|e]] eqn:Hbuild.
  2:{ by rewrite (extract_build_raises _ _ _ _ _ _ _ _ _ _ _ Hbuild) in Hreturned. }
  destruct (Z.lt_trichotomy nb_workers 0) as [Hnb|[->|Hnb]].
  - by rewrite (extract_negative_eq _ _ _ _ _ _ _ _ _ _ Hnb Hbuild) in Hreturned.
  - destruct (extract_sequential_raises fu f tables mappings resolution inplace options w)
      as [e He]. congruence.
  - split; [lia|].
    assert (1 ≤ nb_workers)%Z as Hpool by lia.
    pose proof Hreturned as Hshape.
    rewrite (extract_pool_eq _ _ _ _ _ _ _ _ _ _ Hpool Hbuild) in Hshape.
    destruct (pool_map _ _ _) as [[tmp_result|e] w']; [|done].
    cbn in Hshape. injection Hshape as <-. eexists. split; [done|].
    by eapply extract_no_paths.
Qed.

(** X15. With a negative worker count [extract] raises and adds nothing to
    the log; if the tables were partitioned, the exception is the ValueError
    of the pool, raised once the globals are set. *)
Theorem extract_negative_workers
    (f : processing_function DataArray) (tables : dict string DataFrame)
    (mappings : dict string DBMetadataMapping) (resolution : string) (nb_workers : Z)
    (inplace : bool) (options : CsvOptions) (w : World DataArray) :
  (nb_workers < 0)%Z →
  let outcome := extract fu f tables mappings resolution nb_workers inplace options w in
  (∃ e, returned outcome = Raise e)
  ∧ log (world_after outcome) = log w
  ∧ (is_Ok (build_structures tables mappings resolution inplace).2 →
       returned outcome = Raise ValueError
       ∧ g_processing_function (world_after outcome) = Some f).
Proof.
  intros Hnb. cbv zeta.
  destruct (build_structures tables mappings resolution inplace)
    as [tables' [structures|e]] eqn:Hbuild.
  - rewrite (extract_negative_eq _ _ _ _ _ _ _ _ _ _ Hnb Hbuild). cbn.
    split_and!; [by eexists | done | done].
  - rewrite (extract_build_raises _ _ _ _ _ _ _ _ _ _ _ Hbuild). cbn.
    split_and!; [by eexists | done | by intros [? ?]].
Qed.

(** X16. A label with a table and without a mapping makes [extract] raise
    while it partitions the tables: no global is set and no period is
    processed. *)
Theorem extract_missing_mapping
    (f : processing_function DataArray) (tables : dict string DataFrame)
    (mappings : dict string DBMetadataMapping) (resolution : string) (nb_workers : Z)
    (inplace : bool) (options : CsvOptions) (w : World DataArray) (label : string) :
  label ∈ dict_keys tables → label ∉ dict_keys mappings →
  let outcome := extract fu f tables mappings resolution nb_workers inplace options w in
  (∃ e, returned outcome = Raise e) ∧ world_after outcome = w.
Proof.
  intros Hlabel Hmissing. cbv zeta.
  destruct (build_structures_missing tables mappings resolution inplace label Hlabel
              Hmissing) as [e He].
  destruct (build_structures tables mappings resolution inplace)
    as [tables' structures] eqn:Hbuild.
  simpl in He. subst structures.
  rewrite (extract_build_raises _ _ _ _ _ _ _ _ _ _ _ Hbuild). cbn.
  split; [by eexists | done].
Qed.

(** X17. Without any table, [extract] does not look at the time resolution:
    the sequential dispatch raises UnboundLocalError, a negative worker count
    the ValueError of the pool, and a pool returns the empty dictionary;
    nothing is logged. *)
Theorem extract_no_tables
    (f : processing_function DataArray) (mappings : dict string DBMetadataMapping)
    (resolution : string) (nb_workers : Z) (inplace : bool) (options : CsvOptions)
    (w : World DataArray) :
  let outcome := extract fu f [] mappings resolution nb_workers inplace options w in
  returned outcome
  = (if decide (nb_workers = 0%Z) then Raise UnboundLocalError
     else if decide (nb_workers < 0)%Z then Raise ValueError
     else Ok (ByPeriod []))
  ∧ log (world_after outcome) = log w.
Proof.
  cbv zeta.
  assert (build_structures [] mappings resolution inplace = ([], Ok [])) as Hbuild by done.
  destruct (Z.lt_trichotomy nb_workers 0) as [Hnb|[->|Hnb]].
  - rewrite (extract_negative_eq _ _ _ _ _ _ _ _ _ _ Hnb Hbuild).
    rewrite decide_False, decide_True by lia. done.
  - rewrite (extract_sequential_eq _ _ _ _ _ _ _ _ _ _ Hbuild). done.
  - assert (1 ≤ nb_workers)%Z as Hpool by lia.
    rewrite (extract_pool_eq _ _ _ _ _ _ _ _ _ _ Hpool Hbuild).
    rewrite !decide_False by lia. done.
Qed.


(** X19. With a pool, once the tables are partitioned, [extract] returns
    exactly when the processing function hands back a path prefix and no
    data for every period of the merged structure; it then returns the
    periods, each with an empty dictionary. *)
Theorem extract_pool_returns_iff
    (f : processing_function DataArray) (tables : dict string DataFrame)
    (mappings : dict string DBMetadataMapping) (resolution : string) (nb_workers : Z)
    (inplace : bool) (options : CsvOptions) (w : World DataArray)
    (tables' : dict string DataFrame) (structures : dict string (dict Period Block)) :
  (1 ≤ nb_workers)%Z →
  build_structures tables mappings resolution inplace = (tables', Ok structures) →
  let outcome := extract fu f tables mappings resolution nb_workers inplace options w in
  let merged := __merge_block_structures structures in
  (is_Ok (returned outcome)
   ↔ ∀ period blocks, (period, blocks) ∈ merged →
       ∃ file_prefix_path, f period blocks = Ok (file_prefix_path, []))
  ∧ (is_Ok (returned outcome) →
     returned outcome = Ok (ByPeriod ((λ item, (item.1, [])) <$> merged))).
Proof.
  intros Hpool Hbuild. cbv zeta.
  rewrite (extract_pool_eq _ _ _ _ _ _ _ _ _ _ Hpool Hbuild).
  destruct (pool_map_run f (effective_options options)
              (__merge_block_structures structures)
              (dispatching f options WorkerProcess w) (configured_dispatching _ _ _ _))
    as (r & events & -> & _ & Hiff & Hr).
  cbn [returned]. rewrite <- Hiff.
  assert (is_Ok ((λ tmp_result, ByPeriod (dict_of_pairs tmp_result)) <$> r) ↔ is_Ok r)
    as Hmap.
  { destruct r as [tmp_result|e]; split; intros [x Hx];
      [by eexists | by eexists | done | done]. }
  split; [done|]. rewrite Hmap. intros Hok. rewrite (Hr Hok). cbn. do 2 f_equal.
  apply dict_of_pairs_wf. unfold dict_wf, dict_keys. rewrite <- list_fmap_compose.
  rewrite merge_block_structures_eq by by eapply build_structures_wf.
  rewrite <- list_fmap_compose.
  rewrite (proj1 (Forall_fmap_ext _ id (periods_of structures)))
    by by apply Forall_forall.
  rewrite list_fmap_id. apply NoDup_remove_dups.
Qed.

Lemma Forall2_pair_eq {A B} (l l' : list (A * B)) :
  Forall2 (λ a b, a.1 = b.1 ∧ a.2 = b.2) l l' → l = l'.
Proof.
  induction 1 as [|[k a] [k' b] l l' [Hk Hab] _ IH]; [done|]. simpl in *. by subst.
Qed.

(** X20. [extract] leaves the labels of the caller's tables, their order and
    the rows of every table as they are; when it does not rename in place,
    it leaves the tables as they are. *)
Theorem extract_tables_after
    (f : processing_function DataArray) (tables : dict string DataFrame)
    (mappings : dict string DBMetadataMapping) (resolution : string) (nb_workers : Z)
    (inplace : bool) (options : CsvOptions) (w : World DataArray) :
  dict_wf tables →
  let after :=
    tables_after (extract fu f tables mappings resolution nb_workers inplace options w) in
  Forall2 (λ a b, a.1 = b.1 ∧ rows a.2 = rows b.2) after tables
  ∧ (inplace = false → after = tables).
Proof.
  intros Hwf. cbv zeta. rewrite tables_after_extract. split.
  - apply (build_structures_tables (λ a b, rows a = rows b)); [done | | done].
    intros. apply build_blocks_structure_rows.
  - intros ->.
    apply Forall2_pair_eq.
    apply (build_structures_tables eq); [done | | done].
    intros. apply build_blocks_structure_not_inplace.
Qed.

End dispatcher_more.


(** X14 on the example tables, with a pool of two workers and a processing
    function that hands back no data. *)
Lemma extract_returned_shape_witness :
  (1 ≤ 2)%Z
  ∧ ∃ m, ByPeriod [([@VInt Z_float 2000; VInt 9], []); ([VInt 2000; VInt 10], []);
                    ([VInt 2001; VInt 1], [])] = ByPeriod m
         ∧ ∀ period paths, (period, paths) ∈ m → paths = [].
Proof.
  apply (@extract_returned_shape Z_float example_file_utils (list Z)
           example_silent_function example_tables example_mappings "month" 2 false
           DEFAULT_CSV_SAVE_OPTIONS example_world).
  reflexivity.
Defined.

(** X15 on the example tables, with worker count -1. *)
Lemma extract_negative_workers_witness :
  log (world_after
         (@extract Z_float example_file_utils (list Z) example_processing_function
            example_tables example_mappings "month" (-1) false DEFAULT_CSV_SAVE_OPTIONS
            example_world))
  = log example_world.
Proof.
  apply (@extract_negative_workers Z_float example_file_utils (list Z)
           example_processing_function example_tables example_mappings "month" (-1) false
           DEFAULT_CSV_SAVE_OPTIONS example_world).
  lia.
Defined.

(** X16 on the example tables, with a mapping for the first label only. *)
Lemma extract_missing_mapping_witness :
  world_after
    (@extract Z_float example_file_utils (list Z) example_processing_function
       example_tables [("cyclone", example_mapping)] "month" 4 false
       DEFAULT_CSV_SAVE_OPTIONS example_world)
  = example_world.
Proof.
  apply (@extract_missing_mapping Z_float example_file_utils (list Z)
           example_processing_function example_tables [("cyclone", example_mapping)]
           "month" 4 false DEFAULT_CSV_SAVE_OPTIONS example_world "no_cyclone").
  - compute_done.
  - compute_done.
Defined.


(** X19 on the example tables, with a pool of four workers and a processing
    function that hands back no data. *)
Lemma extract_pool_returns_iff_witness :
  (1 ≤ 4)%Z
  ∧ (is_Ok (returned
           (@extract Z_float example_file_utils (list Z) example_silent_function
              example_tables example_mappings "month" 4 false DEFAULT_CSV_SAVE_OPTIONS
              example_world))
  ↔ ∀ period blocks,
      (period, blocks) ∈ @__merge_block_structures Z_float example_structures →
      ∃ file_prefix_path, example_silent_function period blocks = Ok (file_prefix_path, [])).
Proof.
  split; [lia|].
  apply (@extract_pool_returns_iff Z_float example_file_utils (list Z)
           example_silent_function example_tables example_mappings "month" 4 false
           DEFAULT_CSV_SAVE_OPTIONS example_world example_tables example_structures).
  - lia.
  - reflexivity.
Defined.

(** X20 on the example tables, not in place. *)
Lemma extract_tables_after_witness :
  tables_after
    (@extract Z_float example_file_utils (list Z) example_processing_function
       example_tables example_mappings "month" 4 false DEFAULT_CSV_SAVE_OPTIONS
       example_world)
  = example_tables.
Proof.
  apply (@extract_tables_after Z_float example_file_utils (list Z)
           example_processing_function example_tables example_mappings "month" 4 false
           DEFAULT_CSV_SAVE_OPTIONS example_world).
  - unfold dict_wf. compute_done.
  - reflexivity.
Defined.

(** ** The region extractor and the extraction settings *)


Section time_series_more.
Context `{Float64}.
Variable round_nearest : float → float → Z → float.
Variable str_format : string → time_dict_t → result string.

(** X21. The errors of the direct extraction of a single- or multi-level
    variable: a date that cannot be formatted raises what the formatting
    raises; with the date formatted, a dataset without the latitude
    coordinate of the variable raises KeyError, and an empty latitude axis
    IndexError. *)
Theorem extract_square_region_errors (self : XarrayTimeSeries) (variable : Variable_)
    (a : variable_attributes) (time_dict : time_dict_t)
    (lat lon half_lat_frame half_lon_frame : float) (has_to_round : bool) :
  leaf_attributes variable = Some a →
  let region :=
    _extract_square_region round_nearest str_format self variable time_dict lat lon
      half_lat_frame half_lon_frame has_to_round in
  let lat_series :=
    coordinate (dataset self) (NETCDF_ATTR_NAME (LAT (coordinate_metadata a))) in
  (∀ e, str_format (date_template a) time_dict = Raise e → region = Raise e)
  ∧ (is_Ok (str_format (date_template a) time_dict) →
     (lat_series = None → region = Raise KeyError)
     ∧ (lat_series = Some [] → region = Raise IndexError)).
Proof.
  intros Hleaf. cbv zeta.
  destruct variable as [a'|a' level|]; [| |done]; injection Hleaf as ->;
    unfold _extract_square_region;
    (destruct (str_format (date_template a) time_dict) as [formatted_date|e];
       cbn [mbind result_bind];
       [split; [done | intros _; split; intros ->; done]
       |split; [by intros e' [= <-] | by intros [? ?]]]).
Qed.

End time_series_more.

(** X21 on a dataset without coordinates. *)
Lemma extract_square_region_errors_witness :
  @_extract_square_region Z_float example_round_nearest example_str_format
    {| dataset := {| coordinate := λ _, None; select := λ _, Ok [] |} |}
    example_msl [("year", 2000%Z)] 40%Z 312%Z 4%Z 4%Z true
  = Raise KeyError.
Proof.
  apply (@extract_square_region_errors Z_float example_round_nearest example_str_format
           {| dataset := {| coordinate := λ _, None; select := λ _, Ok [] |} |}
           example_msl example_msl_attributes [("year", 2000%Z)] 40%Z 312%Z 4%Z 4%Z true
           eq_refl).
  - by eexists.
  - reflexivity.
Defined.

Section extraction_config.
Context {V L : Type}.
Implicit Types (self : ExtractionConfig.t V L).


Lemma load_all_Raise {A} (load : string → result A) paths loaded e :
  traverse load paths = Raise e →
  ∃ n variables,
    (n < length paths)%nat
    ∧ traverse load (take n paths) = Ok variables
    ∧ (load <$> paths !! n) = Some (Raise e)
    ∧ ExtractionConfig.load_all load paths loaded = (loaded ++ variables, Raise e).
Proof.
  revert loaded. induction paths as [|path paths IH]; intros loaded; simpl; [done|].
  destruct (load path) as [x|e'] eqn:Hx; cbn [mbind result_bind].
  - destruct (traverse load paths) as [xs|e'] eqn:Hxs; cbn [mbind result_bind]; [done|].
    intros [= ->].
    destruct (IH (loaded ++ [x]) eq_refl) as (n & variables & Hn & Htake & Hfail & ->).
    exists (S n), (x :: variables). simpl. rewrite Hx, Htake. cbn [mbind result_bind].
    split_and!; [lia | done | done | by rewrite <- app_assoc].
  - intros [= ->]. exists 0%nat, []. simpl. rewrite Hx, app_nil_r.
    split_and!; [lia | done | done | done].
Qed.

(** X22. [ExtractionConfig.compute_filename] raises TypeError whatever the
    object: it calls the static method of [ClassificationLabel], which takes
    an identifier and a name, with the identifier alone; the static method of
    its own class gives the file name. *)
Theorem compute_filename_raises self :
  ExtractionConfig.compute_filename self = Raise TypeError
  ∧ ExtractionConfig.generate_filename [ExtractionConfig.str_id self]
    = Ok (format_attribute (ExtractionConfig.str_id self) +:+ "_extraction_config.yml").
Proof. done. Qed.



(** X24. With nothing cached and a description that fails to load,
    [get_variables] raises the error of the loader and keeps the variables
    loaded before it: a further call returns this shorter list without
    loading and without error. *)
Theorem get_variables_failed_load (Variable_load : string → result V) self paths e :
  (∀ cached, ExtractionConfig._variables self ≠ Attr (Some cached)) →
  ExtractionConfig.variable_file_paths self = Some paths →
  traverse Variable_load paths = Raise e →
  ∃ n loaded self',
    (n < length paths)%nat
    ∧ traverse Variable_load (take n paths) = Ok loaded
    ∧ ExtractionConfig.get_variables Variable_load self = (self', Raise e)
    ∧ ∀ load, ExtractionConfig.get_variables load self' = (self', Ok loaded).
Proof.
  intros Hfresh Hpaths Hload. unfold ExtractionConfig.get_variables at 1.
  rewrite Hpaths.
  destruct (load_all_Raise _ _ [] _ Hload) as (n & loaded & Hn & Htake & _ & ->).
  exists n, loaded. simpl.
  destruct (ExtractionConfig._variables self) as [|[cached|]] eqn:Hcache;
    [|by destruct (Hfresh cached)|]; eexists; (split_and!; [done..|]); done.
Qed.

(** X25. [save] on an object that has its two transient attributes: when the
    serialization returns, the object is as before; when it raises, the two
    attributes stay deleted, and every further [save] raises
    AttributeError. *)
Theorem save_outcome (YamlSerializable_save : ExtractionConfig.t V L → string → result unit)
    self file_path variables labels :
  ExtractionConfig._variables self = Attr variables →
  ExtractionConfig._labels self = Attr labels →
  let after := (ExtractionConfig.save YamlSerializable_save self file_path).1 in
  let outcome := (ExtractionConfig.save YamlSerializable_save self file_path).2 in
  (is_Ok outcome → after = self)
  ∧ (¬ is_Ok outcome →
     ExtractionConfig._variables after = Deleted
     ∧ ExtractionConfig._labels after = Deleted
     ∧ ∀ yaml_save path,
         ExtractionConfig.save yaml_save after path = (after, Raise AttributeError)).
Proof.
  intros Hvariables Hlabels. cbv zeta.
  set (stripped := ExtractionConfig.set_labels Deleted
                     (ExtractionConfig.set_variables Deleted self)).
  assert (ExtractionConfig.save YamlSerializable_save self file_path
          = match YamlSerializable_save stripped file_path with
            | Ok _ => (self, Ok ())
            | Raise e => (stripped, Raise e)
            end) as ->.
  { unfold ExtractionConfig.save. rewrite Hvariables, Hlabels. fold stripped.
    destruct (YamlSerializable_save stripped file_path) as [[]|e]; [|done].
    f_equal. destruct self. simpl in *. by subst. }
  destruct (YamlSerializable_save stripped file_path) as [[]|e]; cbn [fst snd].
  - split; [done|]. intros Hraise. destruct Hraise. by eexists.
  - split; [by intros [? ?] | done].
Qed.

End extraction_config.

Section classification_label.

Lemma list_ascii_of_string_app (s1 s2 : string) :
  String.list_ascii_of_string (s1 +:+ s2)
  = String.list_ascii_of_string s1 ++ String.list_ascii_of_string s2.
Proof. induction s1 as [|c s1 IH]; [done|]. simpl. by rewrite IH. Qed.

Lemma list_ascii_of_string_inj (s1 s2 : string) :
  String.list_ascii_of_string s1 = String.list_ascii_of_string s2 → s1 = s2.
Proof.
  intros Heq. rewrite <- (String.string_of_list_ascii_of_string s1),
    <- (String.string_of_list_ascii_of_string s2). by rewrite Heq.
Qed.

Lemma split_at_separator {A} (c : A) (l1 l2 r1 r2 : list A) :
  c ∉ l1 → c ∉ l2 → l1 ++ c :: r1 = l2 ++ c :: r2 → l1 = l2 ∧ r1 = r2.
Proof.
  revert l2. induction l1 as [|x l1 IH]; intros [|y l2] Hl1 Hl2; simpl.
  - by intros [= ->].
  - intros [= <- _]. exfalso. apply Hl2, list_elem_of_here.
  - intros [= -> _]. exfalso. apply Hl1, list_elem_of_here.
  - intros [= -> Heq]. apply not_elem_of_cons in Hl1 as [_ Hl1], Hl2 as [_ Hl2].
    destruct (IH l2 Hl1 Hl2 Heq) as [-> ->]. done.
Qed.

(** X26. Two labels whose identifiers hold no underscore have the same file
    name only if they have the same identifier and the same name. *)
Theorem generate_filename_inj (str_id1 name1 str_id2 name2 : string) :
  no_underscore str_id1 → no_underscore str_id2 →
  ClassificationLabel.generate_filename [Some str_id1; Some name1]
  = ClassificationLabel.generate_filename [Some str_id2; Some name2] →
  str_id1 = str_id2 ∧ name1 = name2.
Proof.
  unfold no_underscore, ClassificationLabel.generate_filename, format_attribute. simpl.
  intros Hid1 Hid2 [= Heq].
  apply (f_equal String.list_ascii_of_string) in Heq.
  rewrite !list_ascii_of_string_app in Heq. simpl in Heq.
  apply split_at_separator in Heq as [Hid Hname]; [|done..].
  apply list_ascii_of_string_inj in Hid as ->. split; [done|].
  apply app_inv_tail in Hname. by apply list_ascii_of_string_inj.
Qed.

End classification_label.



(** X24 on the example settings that list a missing description. *)
Lemma get_variables_failed_load_witness :
  ∃ n loaded self',
    (n < 3)%nat
    ∧ traverse example_load (take n ["msl.yml"; "missing.yml"; "ta200.yml"]) = Ok loaded
    ∧ ExtractionConfig.get_variables example_load example_broken_config
      = (self', Raise FileNotFoundError)
    ∧ ∀ load, ExtractionConfig.get_variables load self' = (self', Ok loaded).
Proof.
  apply (get_variables_failed_load example_load example_broken_config
           ["msl.yml"; "missing.yml"; "ta200.yml"] FileNotFoundError).
  - done.
  - reflexivity.
  - reflexivity.
Defined.

(** X25 on the first example settings, with a serialization that returns. *)
Lemma save_outcome_witness :
  (ExtractionConfig.save (λ _ _, Ok ()) example_config "cyclones_extraction_config.yml").1
  = example_config.
Proof.
  apply (save_outcome (λ _ _, Ok ()) example_config "cyclones_extraction_config.yml"
           None None eq_refl eq_refl).
  by eexists.
Defined.

(** X26 on a label and itself. *)
Lemma generate_filename_inj_witness : "cyclone" = "cyclone" ∧ "2000" = "2000".
Proof.
  apply (generate_filename_inj "cyclone" "2000" "cyclone" "2000").
  - unfold no_underscore. compute_done.
  - unfold no_underscore. compute_done.
  - reflexivity.
Defined.

(** With an underscore in the identifier, two labels can share a file
    name. *)
Example generate_filename_collision :
  ClassificationLabel.generate_filename [Some "a_b"; Some "c"]
  = ClassificationLabel.generate_filename [Some "a"; Some "b_c"].
Proof. reflexivity. Qed.
